(** * mcp-multi-client: the multi-server orchestration client

    A shallow embedding of [mcp-multi-client/src/index.ts] (the class
    [MCPMultiClient] and [main]) together with the result shape produced
    by the tool servers of [mcp-servers].

    Conventions of the embedding.
    - JavaScript values that cross an untyped boundary (tool arguments,
      tool results, input schemas, parsed JSON) are [JsVal].
    - A JS [Map] that is only read by key ([has], [get], [set], [delete],
      [size]) is a [gmap].
    - The outside world (model backend, tool servers, file system, user
      input) is an explicit environment; its answers may depend on the
      whole history of events so far, so stateful servers are covered.
    - Console output and outgoing calls are recorded in a chronological
      trace of [Event]s.  [console.warn] and [console.error] lines, the
      per-invocation "Executing tool" line and the answer printed by the
      chat loop are recorded; the remaining purely informative
      [console.log] lines are not.
    - Thrown values are [Error] instances carrying a message, as thrown by
      the SDKs, [fs], [JSON.parse] and zod.
    - Strings are sequences of one-byte characters; [trim] and
      [toLowerCase] act on the ASCII range. *)

From stdpp Require Import gmap strings list fin_maps pretty.
From Stdlib Require Import ZArith Ascii.

Set Warnings "-register-all,-clear-no-such-hyp".

(** ** JavaScript values and strings *)

Module Js.

Inductive JsVal : Type :=
| JUndefined
| JNull
| JBool (b : bool)
| JNum (z : Z)
| JStr (s : string)
| JArr (items : list JsVal)
| JObj (fields : list (string * JsVal)).

(** [Error] instances: every thrown value of the model. *)
Record JsError : Type := mkError { message : string }.

(** Completion of a call that may throw (or of a promise that may
    reject). *)
Inductive Result (A : Type) : Type :=
| Ok (a : A)
| Err (e : JsError).
Arguments Ok {A} a.
Arguments Err {A} e.

(** ToBoolean. *)
Definition truthy (v : JsVal) : bool :=
  match v with
  | JUndefined | JNull => false
  | JBool b => b
  | JNum z => negb (z =? 0)%Z
  | JStr s => negb (String.eqb s "")
  | JArr _ | JObj _ => true
  end.

(** [typeof v === 'object'] *)
Definition typeof_object (v : JsVal) : bool :=
  match v with
  | JNull | JArr _ | JObj _ => true
  | _ => false
  end.

(** [typeof v === 'string'] *)
Definition typeof_string (v : JsVal) : bool :=
  match v with
  | JStr _ => true
  | _ => false
  end.

Definition isArray (v : JsVal) : bool :=
  match v with
  | JArr _ => true
  | _ => false
  end.

(** [v === true] *)
Definition strict_eq_true (v : JsVal) : bool :=
  match v with
  | JBool true => true
  | _ => false
  end.

(** [v === s] for a string literal [s]. *)
Definition strict_eq_str (v : JsVal) (s : string) : bool :=
  match v with
  | JStr s' => String.eqb s' s
  | _ => false
  end.

Fixpoint assoc (k : string) (fields : list (string * JsVal)) : JsVal :=
  match fields with
  | [] => JUndefined
  | (k', v) :: rest => if String.eqb k k' then v else assoc k rest
  end.

(** Property read [v.k] for an own data property name [k] (none of the
    names read by the client is a built-in of arrays or primitives).
    Reading a property of [undefined] or [null] throws a [TypeError],
    whose message is the runtime's. *)
Definition get (type_error_message : JsVal -> string -> string)
    (v : JsVal) (k : string) : Result JsVal :=
  match v with
  | JUndefined | JNull => Err (mkError (type_error_message v k))
  | JObj fields => Ok (assoc k fields)
  | _ => Ok JUndefined
  end.

(** White space removed by [String.prototype.trim], ASCII range. *)
Definition is_space (c : ascii) : bool :=
  let n := nat_of_ascii c in
  (Nat.eqb n 32 || (Nat.leb 9 n && Nat.leb n 13))%bool.

Fixpoint trimStart (s : string) : string :=
  match s with
  | EmptyString => EmptyString
  | String c s' => if is_space c then trimStart s' else s
  end.

Fixpoint trimEnd (s : string) : string :=
  match s with
  | EmptyString => EmptyString
  | String c s' =>
      let r := trimEnd s' in
      if (is_space c && String.eqb r "")%bool then EmptyString else String c r
  end.

Definition trim (s : string) : string := trimStart (trimEnd s).

Definition lower_char (c : ascii) : ascii :=
  let n := nat_of_ascii c in
  if (Nat.leb 65 n && Nat.leb n 90)%bool then ascii_of_nat (n + 32) else c.

Fixpoint toLowerCase (s : string) : string :=
  match s with
  | EmptyString => EmptyString
  | String c s' => String (lower_char c) (toLowerCase s')
  end.

(** [l.join(sep)] on an array of strings. *)
Definition join (sep : string) (l : list string) : string := String.concat sep l.

(** The characters that a string literal cannot hold directly. *)
Definition nl : string := String (ascii_of_nat 10) "".
Definition dq : string := String (ascii_of_nat 34) "".

(** [s || d] on strings: the empty string is falsy. *)
Definition str_or (s d : string) : string := if String.eqb s "" then d else s.

End Js.
Import Js.

(** ** Data of the client *)

(** MCP's description of a tool, as listed by a server. *)
Record ToolInfo : Type := mkToolInfo {
  ti_name : string;
  ti_description : option string;
  ti_inputSchema : JsVal
}.

(** The backend's [Tool]. *)
Record Tool : Type := mkTool {
  name : string;
  description : string;
  input_schema : JsVal
}.

Record ServerConfig : Type := mkServerConfig {
  command : string;
  args : list string
}.

(** [z.infer<typeof ConfigSchema>]: the entries of [mcpServers] in key
    order, as [Object.entries] lists them. *)
Record McpServerConfig : Type := mkConfig {
  mcpServers : list (string * ServerConfig)
}.

(** What the runtime adds to a thrown [TypeError] and to serialisation. *)
Record Runtime : Type := mkRuntime {
  type_error_message : JsVal -> string -> string;
  JSON_stringify : JsVal -> string
}.

Record StdioClientTransport : Type := mkTransport {
  tr_command : string;
  tr_args : list string
}.

Record Client : Type := mkClient {
  client_name : string;
  client_version : string
}.

Record MCPMultiClient : Type := mkMulti {
  apiKey : string;
  serverConfigs : option McpServerConfig;
  mcpClients : gmap string Client;
  transports : gmap string StdioClientTransport;
  allTools : list Tool;
  toolToServerMap : gmap string string
}.

(** ** The model backend's messages *)

(** [interface ToolUseBlock]; an absent [input] is [JUndefined]. *)
Record ToolUseBlock : Type := mkToolUse {
  tu_id : string;
  tu_name : string;
  tu_input : JsVal
}.

Inductive ContentBlock : Type :=
| Text (text : string)
| ToolUse (block : ToolUseBlock)
| OtherBlock (type : string).

Record ToolResultPart : Type := mkToolResult {
  tool_use_id : string;
  content : string;
  is_error : bool
}.

Inductive Role : Type := user | assistant.

Inductive MessageContent : Type :=
| ContentText (text : string)
| ContentBlocks (blocks : list ContentBlock)
| ContentToolResults (results : list ToolResultPart).

Record MessageParam : Type := mkMessage {
  role : Role;
  msg_content : MessageContent
}.

(** Argument of [anthropic.messages.create]; [tools = None] is
    [undefined], that is, no capability is offered. *)
Record Request : Type := mkRequest {
  model : string;
  max_tokens : Z;
  messages : list MessageParam;
  tools : option (list Tool)
}.

Record Response : Type := mkResponse {
  resp_content : list ContentBlock;
  stop_reason : string
}.

(** ** Events: console output and calls that leave the process *)

Inductive Event : Type :=
| Warn_duplicate_tool (toolName previous serverName : string)
| Warn_schema_format (toolName serverName : string)
| Error_connect (serverName : string) (e : JsError)
| Error_no_servers
| Error_load_config (configPath : string) (e : JsError)
| Error_config_not_found (configFile : string)
| Error_unhandled (e : JsError)
| Log_executing (toolName toolUseId : string) (toolInput : JsVal)
| Error_no_client (toolName : string)
| Error_call_tool (toolName serverName : string) (e : JsError)
| Error_query (e : JsError)
| Warn_stop_reason
| Log_answer (response : string)
| Call_messages_create (req : Request)
| Call_callTool (client : Client) (toolName : string) (arguments : JsVal)
| Call_close (serverNames : gset string)
| Read_query (message : string).

(** How a call ends: it returns, throws, the process exits inside it
    ([process.exit(code)]), or it waits for ever on a promise that is never
    settled. *)
Inductive Completion (A : Type) : Type :=
| Returns (a : A)
| Throws (e : JsError)
| Exits (code : Z)
| Pending.
Arguments Returns {A} a.
Arguments Throws {A} e.
Arguments Exits {A} code.
Arguments Pending {A}.

(** ** Connection establishment and the tool registry *)

Definition set_toolToServerMap (self : MCPMultiClient) (m : gmap string string)
    : MCPMultiClient :=
  mkMulti (apiKey self) (serverConfigs self) (mcpClients self) (transports self)
          (allTools self) m.

Definition set_allTools (self : MCPMultiClient) (l : list Tool) : MCPMultiClient :=
  mkMulti (apiKey self) (serverConfigs self) (mcpClients self) (transports self)
          l (toolToServerMap self).

Definition set_connections (self : MCPMultiClient)
    (cs : gmap string Client) (ts : gmap string StdioClientTransport)
    : MCPMultiClient :=
  mkMulti (apiKey self) (serverConfigs self) cs ts (allTools self)
          (toolToServerMap self).

Definition set_serverConfigs (self : MCPMultiClient) (c : McpServerConfig)
    : MCPMultiClient :=
  mkMulti (apiKey self) (Some c) (mcpClients self) (transports self)
          (allTools self) (toolToServerMap self).

Definition default_schema : JsVal :=
  JObj [("type", JStr "object"); ("properties", JObj [])].

(** The callback of [toolsResult.tools.map] (lines 122-149), applied to one
    listed tool: warn when the name is already owned, record the owner,
    convert the descriptor. *)
Definition register_tool (serverName : string) (m : gmap string string)
    (mcpTool : ToolInfo) : gmap string string * list Event * Tool :=
  let dup :=
    match m !! ti_name mcpTool with
    | Some previous => [Warn_duplicate_tool (ti_name mcpTool) previous serverName]
    | None => []
    end in
  let m' := <[ti_name mcpTool := serverName]> m in
  let '(inputSchema, fmt) :=
    if (truthy (ti_inputSchema mcpTool) && typeof_object (ti_inputSchema mcpTool))%bool
    then (ti_inputSchema mcpTool, [])
    else if truthy (ti_inputSchema mcpTool)
    then (default_schema, [Warn_schema_format (ti_name mcpTool) serverName])
    else (default_schema, []) in
  (m', dup ++ fmt,
   mkTool (ti_name mcpTool)
          (str_or (default "" (ti_description mcpTool))
                  ("Tool " +:+ ti_name mcpTool +:+ " from server " +:+ serverName))
          inputSchema).

(** [toolsResult.tools.map(...)]: the tools of one server, in the order
    listed. *)
Fixpoint register_tools (serverName : string) (tools : list ToolInfo)
    (m : gmap string string) : gmap string string * list Event * list Tool :=
  match tools with
  | [] => (m, [], [])
  | mcpTool :: rest =>
      let '(m1, evs1, t) := register_tool serverName m mcpTool in
      let '(m2, evs2, ts) := register_tools serverName rest m1 in
      (m2, evs1 ++ evs2, t :: ts)
  end.

(** One connection attempt settling (lines 116-159).  [Ok tools]:
    [connect] and [listTools] both resolved; the registration that follows
    contains no [await], so it runs without interleaving.  [Err e]: either
    of them rejected. *)
Definition settle (self : MCPMultiClient)
    (attempt : string * Result (list ToolInfo)) : MCPMultiClient * list Event :=
  match attempt.2 with
  | Ok tools =>
      let '(m, evs, serverTools) :=
        register_tools attempt.1 tools (toolToServerMap self) in
      (set_allTools (set_toolToServerMap self m) (allTools self ++ serverTools), evs)
  | Err e =>
      (set_connections self (delete attempt.1 (mcpClients self))
                            (delete attempt.1 (transports self)),
       [Error_connect attempt.1 e])
  end.

Fixpoint settle_all (self : MCPMultiClient)
    (schedule : list (string * Result (list ToolInfo)))
    : MCPMultiClient * list Event :=
  match schedule with
  | [] => (self, [])
  | attempt :: rest =>
      let '(self1, evs1) := settle self attempt in
      let '(self2, evs2) := settle_all self1 rest in
      (self2, evs1 ++ evs2)
  end.

(** The synchronous part of the [for] loop (lines 98-111): a transport and
    a client are stored for every configured server before any attempt
    settles. *)
Definition open_connection (self : MCPMultiClient) (entry : string * ServerConfig)
    : MCPMultiClient :=
  set_connections self
    (<[entry.1 := mkClient ("mcp-multi-client-" +:+ entry.1) "1.0.0"]> (mcpClients self))
    (<[entry.1 := mkTransport (command entry.2) (args entry.2)]> (transports self)).

(** [connectToServers].  [schedule] lists the attempts in the order in
    which they settle, each with its outcome; it is a permutation of the
    configured servers. *)
Definition connectToServers (self : MCPMultiClient)
    (schedule : list (string * Result (list ToolInfo)))
    : MCPMultiClient * list Event * Completion unit :=
  match serverConfigs self with
  | None => (self, [], Throws (mkError "Configuration not loaded. Call loadConfig first."))
  | Some cfg =>
      let opened := foldl open_connection self (mcpServers cfg) in
      let '(settled, evs) := settle_all opened schedule in
      if Nat.eqb (size (mcpClients settled)) 0
      then (settled, evs ++ [Error_no_servers], Exits 1)
      else (settled, evs, Returns tt)
  end.

(** ** The outside world *)

(** The model backend and the tool servers.  Each answer may depend on the
    events that happened before the call. *)
Record World : Type := mkWorld {
  runtime : Runtime;
  messages_create : list Event -> Request -> Result Response;
  callTool : list Event -> Client -> string -> JsVal -> Result JsVal
}.

(** ** The dispatcher: one iteration of the tool-call loop *)

(** [content.find((c) => c.type === 'text')] *)
Fixpoint find_text (rt : Runtime) (items : list JsVal) : Result JsVal :=
  match items with
  | [] => Ok JUndefined
  | c :: rest =>
      match get (type_error_message rt) c "type" with
      | Err e => Err e
      | Ok ty => if strict_eq_str ty "text" then Ok c else find_text rt rest
      end
  end.

(** Lines 269-291: the body of the inner [try] once [callTool] has
    resolved with [result]. *)
Definition format_result (rt : Runtime) (toolName toolUseId : string)
    (result : JsVal) : Result ToolResultPart :=
  match get (type_error_message rt) result "content" with
  | Err e => Err e
  | Ok content =>
      let resultOutput : Result string :=
        match content with
        | JArr (c :: rest) =>
            match find_text rt (c :: rest) with
            | Err e => Err e
            | Ok textBlock =>
                if truthy textBlock then
                  match get (type_error_message rt) textBlock "text" with
                  | Err e => Err e
                  | Ok (JStr text) => Ok text
                  | Ok _ => Ok (JSON_stringify rt content)
                  end
                else Ok (JSON_stringify rt content)
            end
        | _ =>
            match get (type_error_message rt) result "error" with
            | Err e => Err e
            | Ok err =>
                if truthy err
                then Ok ("Tool " +:+ toolName +:+ " reported an error.")
                else Ok ("Tool " +:+ toolName +:+ " executed.")
            end
        end in
      match resultOutput with
      | Err e => Err e
      | Ok output =>
          match get (type_error_message rt) result "error" with
          | Err e => Err e
          | Ok err => Ok (mkToolResult toolUseId output (strict_eq_true err))
          end
      end
  end.

(** [serverName ? this.mcpClients.get(serverName) : undefined] *)
Definition resolve (self : MCPMultiClient) (toolName : string) : option Client :=
  match toolToServerMap self !! toolName with
  | Some serverName =>
      if String.eqb serverName "" then None else mcpClients self !! serverName
  | None => None
  end.

(** Lines 236-300: the dispatch of one requested invocation.  [hist] is the
    trace before the iteration. *)
Definition invoke (w : World) (self : MCPMultiClient) (hist : list Event)
    (toolCall : ToolUseBlock) : list Event * ToolResultPart :=
  let toolName := tu_name toolCall in
  let toolInput := if truthy (tu_input toolCall) then tu_input toolCall else JObj [] in
  let toolUseId := tu_id toolCall in
  let started := [Log_executing toolName toolUseId toolInput] in
  match resolve self toolName with
  | None =>
      (started ++ [Error_no_client toolName],
       mkToolResult toolUseId
         ("Error: Tool " +:+ dq +:+ toolName +:+ dq +:+
          " is not available or its server is disconnected.")
         true)
  | Some client =>
      let called := started ++ [Call_callTool client toolName toolInput] in
      let failed (e : JsError) :=
        (called ++ [Error_call_tool toolName
                      (default "" (toolToServerMap self !! toolName)) e],
         mkToolResult toolUseId
           ("Error executing tool " +:+ toolName +:+ ": " +:+ message e) true) in
      match callTool w (hist ++ started) client toolName toolInput with
      | Err e => failed e
      | Ok result =>
          match format_result (runtime w) toolName toolUseId result with
          | Err e => failed e
          | Ok part => (called, part)
          end
      end
  end.

(** The [for (const toolCall of toolCalls)] loop: strictly sequential. *)
Fixpoint run_tools (w : World) (self : MCPMultiClient) (hist : list Event)
    (toolCalls : list ToolUseBlock) : list Event * list ToolResultPart :=
  match toolCalls with
  | [] => ([], [])
  | toolCall :: rest =>
      let '(evs1, part) := invoke w self hist toolCall in
      let '(evs2, parts) := run_tools w self (hist ++ evs1) rest in
      (evs1 ++ evs2, part :: parts)
  end.

(** ** The conversation engine *)

Definition tool_uses (blocks : list ContentBlock) : list ToolUseBlock :=
  omap (fun b => match b with ToolUse tu => Some tu | _ => None end) blocks.

Definition texts (blocks : list ContentBlock) : list string :=
  omap (fun b => match b with Text t => Some t | _ => None end) blocks.

Definition initial_model : string := "claude-3-5-sonnet-20240620".
Definition final_model : string := "claude-3-opus-20240229".
Definition no_text_placeholder : string := "Claude did not provide a text response.".

(** The phase-1 request (lines 187-192). *)
Definition initial_request (self : MCPMultiClient) (query : string) : Request :=
  mkRequest initial_model 2048 [mkMessage user (ContentText query)]
    (if Nat.ltb 0 (length (allTools self)) then Some (allTools self) else None).

(** The phase-4 request (lines 305-315). *)
Definition final_request (query : string) (initialContent : list ContentBlock)
    (toolResults : list ToolResultPart) : Request :=
  mkRequest final_model 2048
    [mkMessage user (ContentText query);
     mkMessage assistant (ContentBlocks initialContent);
     mkMessage user (ContentToolResults toolResults)]
    None.

(** [processQuery]: the events of the query and its answer.  It never
    throws: the whole body after the first two statements is inside
    [try]/[catch]. *)
Definition processQuery (w : World) (self : MCPMultiClient) (hist : list Event)
    (query : string) : list Event * string :=
  let req1 := initial_request self query in
  let sent1 := [Call_messages_create req1] in
  match messages_create w hist req1 with
  | Err e => (sent1 ++ [Error_query e], "An error occurred: " +:+ message e)
  | Ok initialResponse =>
      let toolCalls := tool_uses (resp_content initialResponse) in
      let textContents := texts (resp_content initialResponse) in
      let finalAnswer :=
        if Nat.ltb 0 (length textContents) then join nl textContents +:+ nl else "" in
      match toolCalls with
      | [] =>
          (sent1 ++ (if String.eqb (stop_reason initialResponse) "tool_use"
                     then [Warn_stop_reason] else []),
           str_or (trim finalAnswer) no_text_placeholder)
      | _ :: _ =>
          let '(evs, toolResults) := run_tools w self (hist ++ sent1) toolCalls in
          let req2 := final_request query (resp_content initialResponse) toolResults in
          let sent2 := sent1 ++ evs ++ [Call_messages_create req2] in
          match messages_create w (hist ++ sent1 ++ evs) req2 with
          | Err e => (sent2 ++ [Error_query e], "An error occurred: " +:+ message e)
          | Ok finalResponse =>
              let finalContent := join nl (texts (resp_content finalResponse)) in
              (sent2, trim (finalAnswer +:+ finalContent))
          end
      end
  end.

(** ** Start-up, the chat loop and shut-down *)

(** The process environment, the file system, the connection attempts and
    the user.  [schedule] gives, for the configured servers, the order in
    which the attempts settle and how; [stdin] is the lines typed, and when
    they run out the pending [rl.question] is never answered. *)
Record Host : Type := mkHost {
  ANTHROPIC_API_KEY : option string;
  argv2 : option string;
  defaultConfigFile : string;
  existsSync : string -> bool;
  readFileSync : string -> Result string;
  JSON_parse : string -> Result JsVal;
  zod_message : JsVal -> string;
  schedule : list (string * ServerConfig) -> list (string * Result (list ToolInfo));
  stdin : list string
}.

(** [z.array(z.string())] *)
Fixpoint parse_strings (items : list JsVal) : option (list string) :=
  match items with
  | [] => Some []
  | JStr s :: rest => cons s <$> parse_strings rest
  | _ => None
  end.

(** [ServerConfigSchema.parse] *)
Definition ServerConfigSchema_parse (v : JsVal) : option ServerConfig :=
  match v with
  | JObj fields =>
      match assoc "command" fields, assoc "args" fields with
      | JStr c, JArr items => mkServerConfig c <$> parse_strings items
      | _, _ => None
      end
  | _ => None
  end.

(** [z.record(z.string(), ServerConfigSchema)] on the properties of an
    object. *)
Fixpoint parse_record (fields : list (string * JsVal))
    : option (list (string * ServerConfig)) :=
  match fields with
  | [] => Some []
  | (k, v) :: rest =>
      match ServerConfigSchema_parse v, parse_record rest with
      | Some c, Some l => Some ((k, c) :: l)
      | _, _ => None
      end
  end.

(** [ConfigSchema.parse] *)
Definition ConfigSchema_parse (rawConfig : JsVal) : option McpServerConfig :=
  match rawConfig with
  | JObj fields =>
      match assoc "mcpServers" fields with
      | JObj servers => mkConfig <$> parse_record servers
      | _ => None
      end
  | _ => None
  end.

(** [new MCPMultiClient()] *)
Definition constructor (h : Host) : Result MCPMultiClient :=
  match ANTHROPIC_API_KEY h with
  | Some key =>
      if String.eqb key ""
      then Err (mkError "ANTHROPIC_API_KEY is not set in .env file")
      else Ok (mkMulti key None ∅ ∅ [] ∅)
  | None => Err (mkError "ANTHROPIC_API_KEY is not set in .env file")
  end.

(** [loadConfig]: any failure is logged and thrown again. *)
Definition loadConfig (h : Host) (self : MCPMultiClient) (configPath : string)
    : MCPMultiClient * list Event * Completion unit :=
  let rethrow (e : JsError) := (self, [Error_load_config configPath e], Throws e) in
  match readFileSync h configPath with
  | Err e => rethrow e
  | Ok configData =>
      match JSON_parse h configData with
      | Err e => rethrow e
      | Ok rawConfig =>
          match ConfigSchema_parse rawConfig with
          | None => rethrow (mkError (zod_message h rawConfig))
          | Some cfg => (set_serverConfigs self cfg, [], Returns tt)
          end
      end
  end.

(** [chatLoop], on the lines still to be read. *)
Fixpoint chatLoop (w : World) (self : MCPMultiClient) (hist : list Event)
    (lines : list string) : list Event * Completion unit :=
  match lines with
  | [] => ([], Pending)
  | message :: rest =>
      let read := [Read_query message] in
      if String.eqb (toLowerCase message) "quit" then (read, Returns tt)
      else if String.eqb (trim message) "" then
        let '(evs, c) := chatLoop w self (hist ++ read) rest in (read ++ evs, c)
      else
        let '(qevs, response) := processQuery w self (hist ++ read) message in
        let answered := read ++ qevs ++ [Log_answer response] in
        let '(evs, c) := chatLoop w self (hist ++ answered) rest in
        (answered ++ evs, c)
  end.

(** [cleanup]: every connection still in the table is closed; a failing
    [close] is caught. *)
Definition cleanup (self : MCPMultiClient) : list Event :=
  [Call_close (dom (mcpClients self))].

(** The body of the [try] block of [main]. *)
Definition session (h : Host) (w : World) (mcpClient : MCPMultiClient)
    (configFile : string) : MCPMultiClient * list Event * Completion unit :=
  match loadConfig h mcpClient configFile with
  | (loaded, evs1, Returns _) =>
      let attempts := schedule h (default [] (mcpServers <$> serverConfigs loaded)) in
      match connectToServers loaded attempts with
      | (connected, evs2, Returns _) =>
          let '(evs3, c) := chatLoop w connected (evs1 ++ evs2) (stdin h) in
          (connected, evs1 ++ evs2 ++ evs3, c)
      | (connected, evs2, c) => (connected, evs1 ++ evs2, c)
      end
  | r => r
  end.

(** [main].  A [Throws] completion is a rejection of the promise that
    [void main()] discards. *)
Definition main (h : Host) (w : World) : list Event * Completion unit :=
  let configFile := str_or (default "" (argv2 h)) (defaultConfigFile h) in
  if negb (existsSync h configFile)
  then ([Error_config_not_found configFile], Exits 1)
  else
    match constructor h with
    | Err e => ([], Throws e)
    | Ok mcpClient =>
        match session h w mcpClient configFile with
        | (final, evs, Returns _) => (evs ++ cleanup final, Exits 0)
        | (final, evs, Throws e) => (evs ++ [Error_unhandled e] ++ cleanup final, Exits 0)
        | (_, evs, Exits code) => (evs, Exits code)
        | (_, evs, Pending) => (evs, Pending)
        end
    end.

(** * Properties *)

(** ** Observations on traces *)

(** The collision warnings about [n]: their (previous owner, new owner)
    pairs, in order. *)
Definition dup_warnings (n : string) (evs : list Event) : list (string * string) :=
  omap (fun ev => match ev with
                  | Warn_duplicate_tool t previous s =>
                      if String.eqb t n then Some (previous, s) else None
                  | _ => None
                  end) evs.

(** The requests sent to the model backend, in order. *)
Definition backend_calls (evs : list Event) : list Request :=
  omap (fun ev => match ev with Call_messages_create r => Some r | _ => None end) evs.

(** The dispatches started, as (capability name, request id), in order. *)
Definition dispatches (evs : list Event) : list (string * string) :=
  omap (fun ev => match ev with Log_executing n i _ => Some (n, i) | _ => None end) evs.

(** The remote invocations issued, as (client, capability name), in order. *)
Definition remote_calls (evs : list Event) : list (Client * string) :=
  omap (fun ev => match ev with Call_callTool c n _ => Some (c, n) | _ => None end) evs.



(** The servers whose attempt fails. *)
Definition failed (schedule : list (string * Result (list ToolInfo))) : list string :=
  omap (fun a => match a.2 with Err _ => Some a.1 | Ok _ => None end) schedule.

(** The servers whose attempt succeeds, with their catalogs. *)
Definition succeeded (schedule : list (string * Result (list ToolInfo)))
    : list (string * list ToolInfo) :=
  omap (fun a => match a.2 with Ok tools => Some (a.1, tools) | Err _ => None end) schedule.

(** The names listed by the successful attempts, in settling order. *)
Definition registered_names (schedule : list (string * Result (list ToolInfo)))
    : list string :=
  mjoin ((fun p : string * list ToolInfo => ti_name <$> p.2) <$> succeeded schedule).

(** The events of one dispatch: it starts with the line announcing the
    invocation of [toolCall], starts no other dispatch, and issues at most
    one remote invocation, which is of the capability requested. *)
Definition one_dispatch (toolCall : ToolUseBlock) (group : list Event) : Prop :=
  ∃ toolInput tail,
    group = Log_executing (tu_name toolCall) (tu_id toolCall) toolInput :: tail ∧
    dispatches tail = [] ∧ backend_calls tail = [] ∧
    (remote_calls tail = [] ∨ ∃ client, remote_calls tail = [(client, tu_name toolCall)]).


(** ** Ways in which the configuration file is rejected *)

Definition unreadable (h : Host) (configPath : string) : Prop :=
  ∃ e, readFileSync h configPath = Err e.

Definition malformed (h : Host) (configPath : string) : Prop :=
  ∃ configData e,
    readFileSync h configPath = Ok configData ∧ JSON_parse h configData = Err e.

Definition schema_invalid (h : Host) (configPath : string) : Prop :=
  ∃ configData rawConfig,
    readFileSync h configPath = Ok configData ∧
    JSON_parse h configData = Ok rawConfig ∧
    ConfigSchema_parse rawConfig = None.

(** The path [main] loads. *)
Definition configFile (h : Host) : string :=
  str_or (default "" (argv2 h)) (defaultConfigFile h).

(** ** Sample data: the servers of the repository *)

Module Sample.

Definition empty_schema : JsVal :=
  JObj [("type", JStr "object"); ("properties", JObj [])].

(** The catalog of the simple server. *)
Definition HELLO : ToolInfo :=
  mkToolInfo "HELLO" (Some "Sends a simple greeting message") empty_schema.
Definition ECHO : ToolInfo :=
  mkToolInfo "ECHO" (Some "Repeats the exact message provided as input") empty_schema.
Definition TIME : ToolInfo :=
  mkToolInfo "TIME" (Some "Retrieves the current system date and time") empty_schema.
Definition simple_catalog : list ToolInfo := [HELLO; ECHO; TIME].

(** The catalog of the process-control server, first tool only. *)
Definition LIST_PROCESSES : ToolInfo :=
  mkToolInfo "LIST_PROCESSES" (Some "Retrieves a list of currently running processes")
             empty_schema.

Definition node (script : string) : ServerConfig := mkServerConfig "node" [script].

(** Two configured instances of the simple server. *)
Definition twice_simple : McpServerConfig :=
  mkConfig [("simple", node "build/simpleServer.js");
            ("simple2", node "build/simpleServer.js")].

Definition new_client (cfg : McpServerConfig) : MCPMultiClient :=
  mkMulti "sk-key" (Some cfg) ∅ ∅ [] ∅.

Definition both_connect : list (string * Result (list ToolInfo)) :=
  [("simple", Ok simple_catalog); ("simple2", Ok simple_catalog)].

(** The client after [connectToServers] in that case. *)
Definition twice_connected : MCPMultiClient :=
  (connectToServers (new_client twice_simple) both_connect).1.1.

(** The simple server and a server that cannot be spawned. *)
Definition simple_and_broken : McpServerConfig :=
  mkConfig [("simple", node "build/simpleServer.js");
            ("broken", mkServerConfig "no-such-command" [])].

Definition one_fails : list (string * Result (list ToolInfo)) :=
  [("broken", Err (mkError "spawn no-such-command ENOENT"));
   ("simple", Ok simple_catalog)].

Definition rt : Runtime :=
  mkRuntime (fun _ k => "Cannot read properties of undefined (reading " +:+ k +:+ ")")
            (fun _ => "[...]").

(** A client connected to the process-control server only. *)
Definition process_only : McpServerConfig :=
  mkConfig [("process", node "build/processControlServer.js")].

Definition process_connected : MCPMultiClient :=
  (connectToServers (new_client process_only) [("process", Ok [LIST_PROCESSES])]).1.1.

(** What the [LIST_PROCESSES] handler returns from its [catch] block
    (lines 57-63 of the process-control server). *)
Definition list_processes_failure : JsVal :=
  JObj [("content",
         JArr [JObj [("type", JStr "text");
                     ("text", JStr "Error listing processes: spawn ps ENOENT")]]);
        ("isError", JBool true)].

(** The same result with the flag under the name the client reads. *)
Definition list_processes_failure_error : JsVal :=
  JObj [("content",
         JArr [JObj [("type", JStr "text");
                     ("text", JStr "Error listing processes: spawn ps ENOENT")]]);
        ("error", JBool true)].

Definition backend_down : list Event -> Request -> Result Response :=
  fun _ _ => Err (mkError "Connection error.").

(** A world whose process-control server fails to list processes. *)
Definition ps_missing : World :=
  mkWorld rt backend_down (fun _ _ _ _ => Ok list_processes_failure).

Definition list_call : ToolUseBlock := mkToolUse "toolu_01" "LIST_PROCESSES" JUndefined.



(** A backend that asks for the time, and a simple server that tells it. *)
Definition asks_time : Response :=
  mkResponse [Text "Let me check."; ToolUse (mkToolUse "toolu_01" "TIME" (JObj []))]
             "tool_use".

Definition clock : World :=
  mkWorld rt (fun _ _ => Ok asks_time)
    (fun _ _ _ _ =>
       Ok (JObj [("content",
                  JArr [JObj [("type", JStr "text");
                              ("text", JStr "2024-05-01T10:00:00.000Z")]])])).

(** A host whose configuration file holds the JSON text of an empty
    object: it parses, and the schema rejects it. *)
Definition settle_in_order (entries : list (string * ServerConfig))
    : list (string * Result (list ToolInfo)) :=
  (fun entry : string * ServerConfig => (entry.1, Ok simple_catalog)) <$> entries.

Definition invalid_config_host : Host :=
  mkHost (Some "sk-key") None "mcp-servers.json" (fun _ => true)
         (fun _ => Ok "{}") (fun _ => Ok (JObj [])) (fun _ => "mcpServers: Required")
         settle_in_order ["what time is it"; "quit"].

(** A host whose configuration file exists and cannot be read. *)
Definition unreadable_config_host : Host :=
  mkHost (Some "sk-key") None "mcp-servers.json" (fun _ => true)
         (fun _ => Err (mkError "EACCES: permission denied"))
         (fun _ => Ok (JObj [])) (fun _ => "mcpServers: Required")
         settle_in_order ["what time is it"; "quit"].

(** A host without a configuration file, and one without the credential. *)
Definition no_config_host : Host :=
  mkHost (Some "sk-key") None "mcp-servers.json" (fun _ => false)
         (fun _ => Err (mkError "ENOENT")) (fun _ => Ok (JObj []))
         (fun _ => "mcpServers: Required") settle_in_order ["quit"].

Definition no_credential_host : Host :=
  mkHost None None "mcp-servers.json" (fun _ => true)
         (fun _ => Ok "{}") (fun _ => Ok (JObj [])) (fun _ => "mcpServers: Required")
         settle_in_order ["quit"].

End Sample.

(** ** Further observations on schedules *)

(** The server that owns [n] once the attempts of a schedule have settled:
    the last successful attempt that lists [n], if there is one. *)
Fixpoint last_owner (n : string) (schedule : list (string * Result (list ToolInfo)))
    : option string :=
  match schedule with
  | [] => None
  | (s, Ok tools) :: rest =>
      match last_owner n rest with
      | Some o => Some o
      | None => if bool_decide (n ∈ ti_name <$> tools) then Some s else None
      end
  | (_, Err _) :: rest => last_owner n rest
  end.

(** How often [n] occurs in a list of names. *)
Definition count_name (n : string) (names : list string) : nat :=
  length (filter (fun x => x = n) names).

(** How often [n] is listed by the successful attempts of a schedule. *)
Definition listings (n : string) (schedule : list (string * Result (list ToolInfo)))
    : nat :=
  count_name n (registered_names schedule).

(** The descriptor offered for a listed tool; it does not depend on the
    registry. *)
Definition convert (serverName : string) (mcpTool : ToolInfo) : Tool :=
  (register_tool serverName ∅ mcpTool).2.

(** The descriptors of the successful attempts, in settling order. *)
Definition registered_tools (schedule : list (string * Result (list ToolInfo)))
    : list Tool :=
  mjoin ((fun p : string * list ToolInfo => convert p.1 <$> p.2) <$> succeeded schedule).

(** ** Shapes of tool results *)

(** A value whose properties can be read without a [TypeError]. *)
Definition readable (c : JsVal) : bool :=
  match c with
  | JUndefined | JNull => false
  | _ => true
  end.

(** A content block whose [type] is ['text']. *)
Definition is_text_block (c : JsVal) : bool :=
  match c with
  | JObj block => strict_eq_str (assoc "type" block) "text"
  | _ => false
  end.

(** The first content block of type ['text'], if any. *)
Fixpoint first_text_block (items : list JsVal) : option JsVal :=
  match items with
  | [] => None
  | c :: rest => if is_text_block c then Some c else first_text_block rest
  end.

(** The text that the dispatcher hands back for a non-empty content array:
    the [text] of the first text block when it is a string, the serialised
    array otherwise. *)
Definition normalised_text (rt : Runtime) (items : list JsVal) : string :=
  match first_text_block items with
  | Some (JObj block) =>
      match assoc "text" block with
      | JStr text => text
      | _ => JSON_stringify rt (JArr items)
      end
  | _ => JSON_stringify rt (JArr items)
  end.

(** The result every tool handler of the servers returns: one text block,
    with the mark [isError: true] on failure. *)
Definition handler_result (text : string) (failed : bool) : JsVal :=
  JObj ([("content", JArr [JObj [("type", JStr "text"); ("text", JStr text)]])]
        ++ if failed then [("isError", JBool true)] else []).

(** ** More sample data *)

Module Cases.

(** A server configured under the empty name. *)
Definition nameless : McpServerConfig :=
  mkConfig [("", Sample.node "build/simpleServer.js")].

Definition nameless_connects : list (string * Result (list ToolInfo)) :=
  [("", Ok Sample.simple_catalog)].

(** A result with two text blocks after an image block. *)
Definition mixed_content : JsVal :=
  JObj [("content",
         JArr [JObj [("type", JStr "image"); ("data", JStr "AAAA")];
               JObj [("type", JStr "text"); ("text", JStr "first")];
               JObj [("type", JStr "text"); ("text", JStr "second")]])].

(** A world whose tool servers are gone. *)
Definition disconnected : World :=
  mkWorld Sample.rt (fun _ _ => Ok Sample.asks_time)
          (fun _ _ _ _ => Err (mkError "Not connected")).

(** A world whose backend answers the first request and then fails. *)
Definition backend_fails_second : World :=
  mkWorld Sample.rt
    (fun hist _ => match hist with
                   | [] => Ok Sample.asks_time
                   | _ => Err (mkError "overloaded")
                   end)
    (fun _ _ _ _ => Ok (handler_result "2024-05-01T10:00:00.000Z" false)).

End Cases.

(** ** Observations on sessions *)










(** The configuration file at [path] is read, parsed and accepted as
    [cfg]. *)
Definition config_loads (h : Host) (path : string) (cfg : McpServerConfig) : Prop :=
  ∃ configData rawConfig,
    readFileSync h path = Ok configData ∧
    JSON_parse h configData = Ok rawConfig ∧
    ConfigSchema_parse rawConfig = Some cfg.

(** The parsed JSON of a configuration file that describes [cfg]. *)
Definition encode_server (c : ServerConfig) : JsVal :=
  JObj [("command", JStr (command c)); ("args", JArr (JStr <$> args c))].

Definition encode_config (cfg : McpServerConfig) : JsVal :=
  JObj [("mcpServers",
         JObj ((fun entry : string * ServerConfig => (entry.1, encode_server entry.2))
                 <$> mcpServers cfg))].



Module Hosts.

(** A host with the simple server and a server that cannot be spawned; the
    user asks one question between two blank lines and then quits. *)
Definition settles (entries : list (string * ServerConfig))
    : list (string * Result (list ToolInfo)) :=
  (fun entry : string * ServerConfig =>
     (entry.1, if String.eqb entry.1 "broken"
               then Err (mkError "spawn no-such-command ENOENT")
               else Ok Sample.simple_catalog)) <$> entries.



(** A host whose configuration lists no server. *)
Definition no_servers : Host :=
  mkHost (Some "sk-key") None "mcp-servers.json" (fun _ => true)
         (fun _ => Ok "{...}") (fun _ => Ok (encode_config (mkConfig [])))
         (fun _ => "invalid") settles ["what time is it"; "quit"].

End Hosts.

(** * The tool servers *)

(** ** A JavaScript [Map] whose iteration order matters

    Entries are kept in insertion order; [set] on a present key replaces
    the value in place, [delete] removes the entry. *)

Module JsMap.

Section Ops.

Context {K V : Type} `{EqDecision K}.

Fixpoint get (k : K) (m : list (K * V)) : option V :=
  match m with
  | [] => None
  | (k', v) :: rest => if decide (k = k') then Some v else get k rest
  end.

Definition has (k : K) (m : list (K * V)) : bool := bool_decide (is_Some (get k m)).

Fixpoint set (k : K) (v : V) (m : list (K * V)) : list (K * V) :=
  match m with
  | [] => [(k, v)]
  | (k', v') :: rest =>
      if decide (k = k') then (k, v) :: rest else (k', v') :: set k v rest
  end.

Fixpoint delete (k : K) (m : list (K * V)) : list (K * V) :=
  match m with
  | [] => []
  | (k', v') :: rest => if decide (k = k') then rest else (k', v') :: delete k rest
  end.

End Ops.

End JsMap.

(** ** The process-control server

    Handlers take the arguments as validated by their schemas; the one call
    a handler makes to the operating system is given by its outcome.
    Process ids are integers; they print in decimal. *)

Module ProcessControl.

Record Managed : Type := mkManaged {
  m_command : string;
  m_args : list string
}.

(** [runningProcesses], keyed by pid. *)
Definition Processes : Type := list (Z * Managed).

(** [START_PROCESS].  [spawned] is the pid of the child returned by
    [spawn] ([None] when it has none), or what [spawn] threw. *)
Definition START_PROCESS (spawned : Result (option Z))
    (command : string) (args : list string) (runningProcesses : Processes)
    : Processes * JsVal :=
  let failure (e : JsError) :=
    (runningProcesses,
     handler_result ("Error starting process: " +:+ message e) true) in
  match spawned with
  | Err e => failure e
  | Ok pid =>
      match pid with
      | Some p =>
          if (p =? 0)%Z then failure (mkError "Failed to get PID for started process.")
          else (JsMap.set p (mkManaged command args) runningProcesses,
                handler_result ("Process started with PID: " +:+ pretty p) false)
      | None => failure (mkError "Failed to get PID for started process.")
      end
  end.

(** [STOP_PROCESS].  [killed] is the outcome of [kill()] on the managed
    child, [external] that of [process.kill(pid)]; only the one that
    applies is used. *)
Definition STOP_PROCESS (killed : Result bool) (external : Result unit)
    (pid : Z) (runningProcesses : Processes) : Processes * JsVal :=
  let failure (e : JsError) :=
    (runningProcesses,
     handler_result
       ("Error stopping process PID " +:+ pretty pid +:+ ": " +:+ message e) true) in
  if JsMap.has pid runningProcesses then
    match killed with
    | Ok true =>
        (JsMap.delete pid runningProcesses,
         handler_result
           ("Kill signal sent to managed process PID: " +:+ pretty pid +:+ ".") false)
    | Ok false =>
        failure (mkError ("Failed to send kill signal to managed process PID: "
                          +:+ pretty pid +:+ "."))
    | Err e => failure e
    end
  else
    match external with
    | Ok _ =>
        (runningProcesses,
         handler_result
           ("Kill signal sent to external process PID: " +:+ pretty pid +:+
            ". Check system logs for confirmation.") false)
    | Err e => failure e
    end.

(** The mark the handlers put on a failure. *)
Definition marked_error (result : JsVal) : bool :=
  match result with
  | JObj fields => strict_eq_true (assoc "isError" fields)
  | _ => false
  end.

End ProcessControl.

(** ** The task-scheduling server

    A [StoredTask] is a mutable object shared between [scheduledTasks] and
    the callbacks of its runs, so the objects live in a store and the map
    holds their addresses.  The cron library and the children are the
    environment: [cron.validate], [cron.schedule] and [task.stop] are given
    by their outcomes, and the firing of a task, the data a child writes
    and its closing are inputs of the server. *)

Module TaskScheduling.

Record StoredTask : Type := mkStored {
  t_name : string;
  t_schedule : string;
  t_command : string;
  t_args : list string;
  t_task : nat;
  lastRunOutput : option string;
  lastRunError : option string;
  lastRunExitCode : option Z;
  lastRunTime : option string
}.

(** What the callback given to [cron.schedule] closes over. *)
Record Job : Type := mkJob {
  j_name : string;
  j_schedule : string;
  j_command : string;
  j_args : list string
}.

(** A child that has not closed yet: the task object its handlers write
    to, and its [stdout] and [stderr] accumulators. *)
Record Run : Type := mkRun {
  r_target : nat;
  r_name : string;
  r_stdout : string;
  r_stderr : string
}.

Record Server : Type := mkServer {
  objects : gmap nat StoredTask;
  scheduledTasks : list (string * nat);
  jobs : gmap nat Job;
  runs : gmap nat Run;
  next_object : nat;
  next_task : nat;
  next_run : nat
}.

Definition started : Server := mkServer ∅ [] ∅ ∅ 0 0 0.

Definition quoted (s : string) : string := dq +:+ s +:+ dq.

(** [SCHEDULE_TASK].  [valid] is [cron.validate(schedule)] and [scheduled]
    the outcome of [cron.schedule]. *)
Definition SCHEDULE_TASK (valid : bool) (scheduled : Result unit)
    (name schedule command : string) (args : list string) (srv : Server)
    : Server * JsVal :=
  if JsMap.has name (scheduledTasks srv) then
    (srv, handler_result
            ("Error: Task with name " +:+ quoted name +:+ " already exists.") true)
  else if negb valid then
    (srv, handler_result
            ("Error: Invalid cron schedule format " +:+ quoted schedule +:+ ".") true)
  else
    match scheduled with
    | Err e =>
        (srv, handler_result ("Error scheduling task: " +:+ message e) true)
    | Ok _ =>
        let task := next_task srv in
        let addr := next_object srv in
        let storedTask :=
          mkStored name schedule command args task None None None None in
        (mkServer (<[addr := storedTask]> (objects srv))
                  (JsMap.set name addr (scheduledTasks srv))
                  (<[task := mkJob name schedule command args]> (jobs srv))
                  (runs srv) (S addr) (S task) (next_run srv),
         handler_result
           ("Task " +:+ quoted name +:+ " scheduled successfully with schedule "
            +:+ quoted schedule +:+ ".") false)
    end.

Definition set_lastRunTime (now : string) (t : StoredTask) : StoredTask :=
  mkStored (t_name t) (t_schedule t) (t_command t) (t_args t) (t_task t)
           (lastRunOutput t) (lastRunError t) (lastRunExitCode t) (Some now).

Definition set_lastRunError (err : string) (t : StoredTask) : StoredTask :=
  mkStored (t_name t) (t_schedule t) (t_command t) (t_args t) (t_task t)
           (lastRunOutput t) (Some err) (lastRunExitCode t) (lastRunTime t).

Definition set_closed (code : option Z) (stdout stderr : string) (t : StoredTask)
    : StoredTask :=
  mkStored (t_name t) (t_schedule t) (t_command t) (t_args t) (t_task t)
           (Some stdout) (Some stderr) code (lastRunTime t).

(** The cron callback of [task] fires at time [now]: it takes the object
    stored under the name (or makes one), stamps it, and spawns a child. *)
Definition fire (task : nat) (now : string) (srv : Server) : Server :=
  match jobs srv !! task with
  | None => srv
  | Some job =>
      let '(addr, store, next) :=
        match JsMap.get (j_name job) (scheduledTasks srv) with
        | Some a => (a, objects srv, next_object srv)
        | None =>
            (next_object srv,
             <[next_object srv :=
                 mkStored (j_name job) (j_schedule job) (j_command job) (j_args job)
                          task None None None None]> (objects srv),
             S (next_object srv))
        end in
      mkServer (alter (set_lastRunTime now) addr store)
               (scheduledTasks srv) (jobs srv)
               (<[next_run srv := mkRun addr (j_name job) "" ""]> (runs srv))
               next (next_task srv) (S (next_run srv))
  end.

Inductive ChildEvent : Type :=
| Stdout (data : string)
| Stderr (data : string)
| ChildError (msg : string).

(** The handlers of [stdout] data, [stderr] data and [error]. *)
Definition child_event (run : nat) (ev : ChildEvent) (srv : Server) : Server :=
  match runs srv !! run with
  | None => srv
  | Some r =>
      match ev with
      | Stdout data =>
          mkServer (objects srv) (scheduledTasks srv) (jobs srv)
                   (<[run := mkRun (r_target r) (r_name r) (r_stdout r +:+ data)
                                   (r_stderr r)]> (runs srv))
                   (next_object srv) (next_task srv) (next_run srv)
      | Stderr data =>
          mkServer (objects srv) (scheduledTasks srv) (jobs srv)
                   (<[run := mkRun (r_target r) (r_name r) (r_stdout r)
                                   (r_stderr r +:+ data)]> (runs srv))
                   (next_object srv) (next_task srv) (next_run srv)
      | ChildError msg =>
          mkServer (alter (set_lastRunError msg) (r_target r) (objects srv))
                   (scheduledTasks srv) (jobs srv) (runs srv)
                   (next_object srv) (next_task srv) (next_run srv)
      end
  end.

(** [code || undefined] *)
Definition recorded_code (code : option Z) : option Z :=
  match code with
  | Some c => if (c =? 0)%Z then None else Some c
  | None => None
  end.

(** The handler of [close]; [code] is [None] for [null]. *)
Definition close (run : nat) (code : option Z) (srv : Server) : Server :=
  match runs srv !! run with
  | None => srv
  | Some r =>
      mkServer (alter (set_closed (recorded_code code) (r_stdout r) (r_stderr r))
                      (r_target r) (objects srv))
               (JsMap.set (r_name r) (r_target r) (scheduledTasks srv))
               (jobs srv) (delete run (runs srv))
               (next_object srv) (next_task srv) (next_run srv)
  end.

(** The stored task under [name], through its address. *)
Definition stored (name : string) (srv : Server) : option StoredTask :=
  JsMap.get name (scheduledTasks srv) ≫= fun addr => objects srv !! addr.

Definition exit_code_text (code : option Z) : string :=
  match code with
  | Some c => pretty c
  | None => "N/A"
  end.

Definition output_text (name : string) (t : StoredTask) (ranAt : string) : string :=
  "Output for task " +:+ quoted name +:+ " (run at " +:+ ranAt +:+ "):" +:+ nl +:+ nl
  +:+ "Exit code: " +:+ exit_code_text (lastRunExitCode t) +:+ nl +:+ nl
  +:+ (if String.eqb (default "" (lastRunOutput t)) ""
       then "STDOUT: <no output>" +:+ nl +:+ nl
       else "STDOUT:" +:+ nl +:+ default "" (lastRunOutput t) +:+ nl +:+ nl)
  +:+ (if String.eqb (default "" (lastRunError t)) ""
       then ""
       else "STDERR:" +:+ nl +:+ default "" (lastRunError t)).

(** [GET_TASK_OUTPUT] *)
Definition GET_TASK_OUTPUT (name : string) (srv : Server) : JsVal :=
  match stored name srv with
  | None =>
      handler_result ("Error: Task with name " +:+ quoted name +:+ " not found.") true
  | Some t =>
      match lastRunTime t with
      | None =>
          handler_result ("Task " +:+ quoted name +:+ " has not been executed yet.") false
      | Some ranAt => handler_result (output_text name t ranAt) false
      end
  end.

(** [CANCEL_TASK].  [stopped] is the outcome of [task.stop()]; a stopped
    task fires no more. *)
Definition CANCEL_TASK (stopped : Result unit) (name : string) (srv : Server)
    : Server * JsVal :=
  match stored name srv with
  | None =>
      (srv, handler_result
              ("Error: Task with name " +:+ quoted name +:+ " not found.") true)
  | Some t =>
      match stopped with
      | Ok _ =>
          (mkServer (objects srv) (JsMap.delete name (scheduledTasks srv))
                    (delete (t_task t) (jobs srv)) (runs srv)
                    (next_object srv) (next_task srv) (next_run srv),
           handler_result ("Task " +:+ quoted name +:+ " cancelled successfully.") false)
      | Err e =>
          (srv, handler_result ("Error cancelling task: " +:+ message e) true)
      end
  end.

(** The events of one run after its start. *)
Definition child_events (run : nat) (evs : list ChildEvent) (srv : Server) : Server :=
  foldl (fun s ev => child_event run ev s) srv evs.

Definition stdout_of (evs : list ChildEvent) : string :=
  foldl (fun acc ev => match ev with Stdout data => acc +:+ data | _ => acc end) "" evs.

Definition stderr_of (evs : list ChildEvent) : string :=
  foldl (fun acc ev => match ev with Stderr data => acc +:+ data | _ => acc end) "" evs.

End TaskScheduling.



(** Addresses and task ids in use lie below the next ones to be given
    out. *)
Definition allocated (srv : TaskScheduling.Server) : Prop :=
  (∀ n a, JsMap.get n (TaskScheduling.scheduledTasks srv) = Some a →
          a < TaskScheduling.next_object srv) ∧
  (∀ a t, TaskScheduling.objects srv !! a = Some t →
          TaskScheduling.t_task t < TaskScheduling.next_task srv).

(** ** The registry *)

Section Registry.

Implicit Types (m : gmap string string) (tools : list ToolInfo) (n s : string).

Lemma register_tools_app s tools1 tools2 m :
  register_tools s (tools1 ++ tools2) m =
  let '(m1, evs1, ts1) := register_tools s tools1 m in
  let '(m2, evs2, ts2) := register_tools s tools2 m1 in
  (m2, evs1 ++ evs2, ts1 ++ ts2).
Proof.
  revert m. induction tools1 as [|t tools1 IH]; intros m; simpl.
  - by destruct (register_tools s tools2 m) as [[??]?].
  - destruct (register_tool s m t) as [[m1 e1] t1].
    rewrite IH.
    destruct (register_tools s tools1 m1) as [[m2 e2] ts2].
    destruct (register_tools s tools2 m2) as [[m3 e3] ts3].
    by rewrite <- app_assoc.
Qed.

Lemma register_tool_map s m t : (register_tool s m t).1.1 = <[ti_name t := s]> m.
Proof. unfold register_tool. by repeat case_match. Qed.

Lemma register_tool_name s m t : name (register_tool s m t).2 = ti_name t.
Proof. unfold register_tool. by repeat case_match. Qed.

Lemma register_tool_warnings s m t n :
  dup_warnings n (register_tool s m t).1.2 =
  if String.eqb (ti_name t) n
  then match m !! n with Some p => [(p, s)] | None => [] end
  else [].
Proof.
  unfold register_tool, dup_warnings.
  destruct (String.eqb_spec (ti_name t) n) as [->|Hne].
  - destruct (m !! n) as [p|] eqn:Hm; repeat case_match; simplify_eq; simpl;
      rewrite ?String.eqb_refl; done.
  - destruct (m !! ti_name t) as [p|] eqn:Hm; repeat case_match; simplify_eq; simpl;
      try (destruct (String.eqb_spec (ti_name t) n); [done|]); done.
Qed.

(** The converted descriptors carry the listed names, in the listed
    order. *)
Lemma register_tools_names s tools m :
  name <$> (register_tools s tools m).2 = ti_name <$> tools.
Proof.
  revert m. induction tools as [|t tools IH]; intros m; simpl; [done|].
  pose proof (register_tool_name s m t) as Hn.
  pose proof (register_tool_map s m t) as Hm.
  destruct (register_tool s m t) as [[m1 e1] t1]; simpl in *.
  specialize (IH m1).
  destruct (register_tools s tools m1) as [[m2 e2] ts]; simpl in *.
  by f_equal.
Qed.

(** After a server registered its catalog it owns every name in it; the
    other names keep their owner. *)
Lemma register_tools_lookup s tools m n :
  (register_tools s tools m).1.1 !! n =
  if decide (n ∈ ti_name <$> tools) then Some s else m !! n.
Proof.
  revert m. induction tools as [|t tools IH]; intros m; simpl.
  - destruct (decide (n ∈ [])) as [H|H]; [by apply elem_of_nil in H|done].
  - pose proof (register_tool_map s m t) as Hm.
    destruct (register_tool s m t) as [[m1 e1] t1]; simpl in *.
    specialize (IH m1).
    destruct (register_tools s tools m1) as [[m2 e2] ts]; simpl in *.
    rewrite IH, Hm.
    destruct (decide (n ∈ ti_name <$> tools)) as [Hin|Hout];
      destruct (decide (n ∈ ti_name t :: _)) as [Hin'|Hout'].
    + done.
    + set_solver.
    + assert (n = ti_name t) as -> by set_solver. by rewrite lookup_insert_eq.
    + rewrite lookup_insert_ne; [done|]. set_solver.
Qed.



End Registry.

(** ** Settling of the connection attempts *)

(** Run [k] on the client state from which the rest of a schedule
    settles, as recorded by the equation [E]. *)
Ltac at_settled E k :=
  match type of E with
  | settle_all ?x _ = _ => k x
  end.

Section Settling.

Implicit Types (self : MCPMultiClient) (n s : string)
  (attempt : string * Result (list ToolInfo))
  (sched : list (string * Result (list ToolInfo))).


Lemma settle_ok self s tools :
  settle self (s, Ok tools) =
  (set_allTools (set_toolToServerMap self (register_tools s tools (toolToServerMap self)).1.1)
     (allTools self ++ (register_tools s tools (toolToServerMap self)).2),
   (register_tools s tools (toolToServerMap self)).1.2).
Proof.
  unfold settle; simpl.
  by destruct (register_tools s tools (toolToServerMap self)) as [[??]?].
Qed.

Lemma settle_err self s e :
  settle self (s, Err e) =
  (set_connections self (delete s (mcpClients self)) (delete s (transports self)),
   [Error_connect s e]).
Proof. done. Qed.

(** A successful attempt leaves the connection table alone; a failed one
    removes exactly its own server. *)
Lemma settle_clients self attempt s :
  mcpClients (settle self attempt).1 !! s =
  match attempt.2 with
  | Ok _ => mcpClients self !! s
  | Err _ => if decide (s = attempt.1) then None else mcpClients self !! s
  end.
Proof.
  destruct attempt as [a [tools|e]].
  - by rewrite settle_ok.
  - rewrite settle_err; simpl. case_decide as H.
    + subst. apply lookup_delete_eq.
    + by rewrite lookup_delete_ne.
Qed.

Lemma settle_all_clients self sched s :
  mcpClients (settle_all self sched).1 !! s =
  if decide (s ∈ failed sched) then None else mcpClients self !! s.
Proof.
  revert self. induction sched as [|a sched IH]; intros self; simpl.
  - destruct (decide (s ∈ failed [])) as [H|H]; [by apply elem_of_nil in H|done].
  - pose proof (settle_clients self a s) as Hc.
    destruct (settle self a) as [self1 e1]; simpl in Hc.
    specialize (IH self1).
    destruct (settle_all self1 sched) as [self2 e2]; simpl in *.
    rewrite IH, Hc. unfold failed; simpl.
    destruct a as [a [tools|e]]; simpl; [done|].
    repeat case_decide; set_solver.
Qed.

(** Every owner recorded while the attempts settle is a server whose
    attempt succeeded and whose catalog lists the name. *)
Lemma settle_all_owner_sound self sched n s :
  toolToServerMap (settle_all self sched).1 !! n = Some s →
  toolToServerMap self !! n = Some s ∨
  ∃ tools, (s, Ok tools) ∈ sched ∧ n ∈ ti_name <$> tools.
Proof.
  revert self. induction sched as [|a sched IH]; intros self; simpl; [by left|].
  destruct a as [a [tools|e]].
  - rewrite settle_ok.
    destruct (settle_all _ sched) as [self2 e2] eqn:E. simpl. intros H.
    specialize (IH _ ltac:(by rewrite E)) as [IH|(tools' & Hin & Hn)].
    + simpl in IH. rewrite register_tools_lookup in IH. case_decide as Hd.
      * simplify_eq. right. exists tools. split; [left|done].
      * by left.
    + right. exists tools'. split; [by right|done].
  - rewrite settle_err.
    destruct (settle_all _ sched) as [self2 e2] eqn:E. simpl. intros H.
    specialize (IH _ ltac:(by rewrite E)) as [IH|(tools' & Hin & Hn)].
    + by left.
    + right. exists tools'. split; [by right|done].
Qed.


(** The snapshot grows by the catalogs of the successful attempts, in the
    order in which they settle; nothing is ever removed from it. *)
Lemma settle_all_allTools self sched :
  name <$> allTools (settle_all self sched).1 =
  (name <$> allTools self) ++ registered_names sched.
Proof.
  revert self. induction sched as [|a sched IH]; intros self; simpl.
  - by rewrite app_nil_r.
  - destruct a as [a [tools|e]].
    + rewrite settle_ok. destruct (settle_all _ sched) as [self2 e2] eqn:E.
      at_settled E ltac:(fun x => specialize (IH x)).
      rewrite E in IH. simpl in *. rewrite IH.
      rewrite fmap_app, register_tools_names. unfold registered_names, succeeded; simpl.
      by rewrite <- app_assoc.
    + rewrite settle_err. destruct (settle_all _ sched) as [self2 e2] eqn:E.
      at_settled E ltac:(fun x => specialize (IH x)).
      rewrite E in IH. simpl in *. by rewrite IH.
Qed.

End Settling.

Section Collisions.

Implicit Types (self : MCPMultiClient) (n s : string)
  (sched : list (string * Result (list ToolInfo))).



Lemma settle_all_cons_state self a sched :
  (settle_all self (a :: sched)).1 = (settle_all (settle self a).1 sched).1.
Proof.
  simpl. destruct (settle self a) as [self1 e1]; simpl.
  by destruct (settle_all self1 sched).
Qed.

Lemma settle_all_cons_events self a sched :
  (settle_all self (a :: sched)).2 =
  (settle self a).2 ++ (settle_all (settle self a).1 sched).2.
Proof.
  simpl. destruct (settle self a) as [self1 e1]; simpl.
  by destruct (settle_all self1 sched).
Qed.

Lemma dup_warnings_app n evs1 evs2 :
  dup_warnings n (evs1 ++ evs2) = dup_warnings n evs1 ++ dup_warnings n evs2.
Proof. apply omap_app. Qed.


End Collisions.


(** ** Connection establishment as a whole *)

Section Connect.

Implicit Types (self : MCPMultiClient) (n s : string)
  (entries : list (string * ServerConfig))
  (sched : list (string * Result (list ToolInfo))).

Lemma open_connections_clients entries self s :
  is_Some (mcpClients (foldl open_connection self entries) !! s) ↔
  s ∈ entries.*1 ∨ is_Some (mcpClients self !! s).
Proof.
  revert self. induction entries as [|[k c] entries IH]; intros self; simpl.
  - split; [by right|]. intros [H|H]; [by apply elem_of_nil in H|done].
  - rewrite IH. unfold open_connection; simpl.
    destruct (decide (s = k)) as [->|Hne].
    + rewrite lookup_insert_eq. split; intros _; [left; left|right; eauto].
    + rewrite lookup_insert_ne by done. set_solver.
Qed.

Lemma open_connections_registry entries self :
  toolToServerMap (foldl open_connection self entries) = toolToServerMap self ∧
  allTools (foldl open_connection self entries) = allTools self.
Proof.
  revert self. induction entries as [|[k c] entries IH]; intros self; simpl; [done|].
  destruct (IH (open_connection self (k, c))) as [-> ->]. done.
Qed.

Lemma succeeded_elem sched s tools :
  (s, tools) ∈ succeeded sched ↔ (s, Ok tools) ∈ sched.
Proof.
  unfold succeeded. rewrite list_elem_of_omap. split.
  - intros ([a [t|e]] & Hin & Heq); simpl in *; by simplify_eq.
  - intros Hin. by exists (s, Ok tools).
Qed.

Lemma failed_elem sched s : s ∈ failed sched ↔ ∃ e, (s, Err e) ∈ sched.
Proof.
  unfold failed. rewrite list_elem_of_omap. split.
  - intros ([a [t|e]] & Hin & Heq); simpl in *; simplify_eq. by exists e.
  - intros [e Hin]. by exists (s, Err e).
Qed.

(** A server settles once, so it cannot both succeed and fail. *)
Lemma succeeded_not_failed sched s tools :
  NoDup sched.*1 → (s, Ok tools) ∈ sched → s ∉ failed sched.
Proof.
  intros Hnd Hok [e Herr]%failed_elem.
  apply list_elem_of_lookup in Hok as [i Hi], Herr as [j Hj].
  assert (i = j) as ->.
  { eapply NoDup_lookup; [exact Hnd| |]; rewrite list_lookup_fmap.
    - by rewrite Hi.
    - by rewrite Hj. }
  congruence.
Qed.

Lemma settled_name_cases sched s :
  s ∈ sched.*1 → s ∈ failed sched ∨ s ∈ (succeeded sched).*1.
Proof.
  intros ([a [tools|e]] & -> & Hin)%list_elem_of_fmap; simpl.
  - right. apply list_elem_of_fmap. exists (a, tools). split; [done|].
    by apply succeeded_elem.
  - left. apply failed_elem. by exists e.
Qed.

(** What [connectToServers] leaves behind when called on a new client
    whose configuration is loaded. *)
Lemma connect_settled key cfg sched :
  NoDup (mcpServers cfg).*1 → sched.*1 ≡ₚ (mcpServers cfg).*1 →
  let r := connectToServers (mkMulti key (Some cfg) ∅ ∅ [] ∅) sched in
  (∀ s, is_Some (mcpClients r.1.1 !! s) ↔ s ∈ (succeeded sched).*1) ∧
  (∀ n s, toolToServerMap r.1.1 !! n = Some s →
          ∃ tools, (s, tools) ∈ succeeded sched ∧ n ∈ ti_name <$> tools) ∧
  name <$> allTools r.1.1 = registered_names sched ∧
  (succeeded sched = [] → r.2 = Exits 1) ∧
  (succeeded sched ≠ [] → r.2 = Returns tt).
Proof.
  intros Hnd Hperm r.
  set (self := mkMulti key (Some cfg) ∅ ∅ [] ∅) in *.
  set (opened := foldl open_connection self (mcpServers cfg)).
  assert (Hnd' : NoDup sched.*1) by by rewrite Hperm.
  assert (Hclients : ∀ s, is_Some (mcpClients (settle_all opened sched).1 !! s)
                          ↔ s ∈ (succeeded sched).*1).
  { intros s. rewrite settle_all_clients. split.
    - case_decide as Hf; [by intros [? ?]|].
      intros Hs. apply open_connections_clients in Hs as [Hs|[? Hs]];
        [|by subst self; simpl in Hs; rewrite lookup_empty in Hs].
      rewrite <- Hperm in Hs. by destruct (settled_name_cases _ _ Hs).
    - intros ([s' tools] & -> & Hin%succeeded_elem)%list_elem_of_fmap; simpl.
      rewrite decide_False by by eapply succeeded_not_failed.
      apply open_connections_clients. left. rewrite <- Hperm.
      apply list_elem_of_fmap. by exists (s', Ok tools). }
  assert (Hr : r.1.1 = (settle_all opened sched).1).
  { subst r. unfold connectToServers; simpl. fold opened.
    destruct (settle_all opened sched) as [settled evs]. by case_match. }
  assert (Hsize : size (mcpClients (settle_all opened sched).1) = 0
                  ↔ succeeded sched = []).
  { rewrite map_size_empty_iff. split.
    - intros Hempty. destruct (succeeded sched) as [|[s tools] l] eqn:E; [done|].
      assert (is_Some (mcpClients (settle_all opened sched).1 !! s)) as [c Hc].
      { apply Hclients. simpl. left. }
      by rewrite Hempty, lookup_empty in Hc.
    - intros Hnone. apply map_eq. intros s. rewrite lookup_empty.
      apply eq_None_not_Some. rewrite Hclients, Hnone. simpl. apply not_elem_of_nil. }
  rewrite Hr. split; [done|]. split; [|split; [|split]].
  - intros n s Hown.
    apply settle_all_owner_sound in Hown as [Hown|(tools & Hin & Hn)].
    + subst opened. rewrite (proj1 (open_connections_registry _ _)) in Hown.
      subst self. simpl in Hown. by rewrite lookup_empty in Hown.
    + exists tools. by rewrite succeeded_elem.
  - rewrite settle_all_allTools. subst opened.
    by rewrite (proj2 (open_connections_registry _ _)).
  - intros Hnone. apply Hsize in Hnone. subst r. unfold connectToServers; simpl.
    fold opened. destruct (settle_all opened sched) as [settled evs]; simpl in *.
    by rewrite Hnone.
  - intros Hsome. subst r. unfold connectToServers; simpl.
    fold opened. destruct (settle_all opened sched) as [settled evs]; simpl in *.
    destruct (size (mcpClients settled)) eqn:E; [|done].
    exfalso. by apply Hsome, Hsize.
Qed.

End Connect.

(** ** Start-up *)

Section Startup.

Context (h : Host) (w : World).






End Startup.


(** C10.  After connection establishment has settled on a new client,
    every owner recorded in the tool-to-server registry is a key of the
    connected-clients map. *)
Theorem registry_owner_is_connected
    (key : string) (cfg : McpServerConfig)
    (sched : list (string * Result (list ToolInfo))) (n s : string) :
  NoDup (mcpServers cfg).*1 → sched.*1 ≡ₚ (mcpServers cfg).*1 →
  let r := connectToServers (mkMulti key (Some cfg) ∅ ∅ [] ∅) sched in
  toolToServerMap r.1.1 !! n = Some s → is_Some (mcpClients r.1.1 !! s).
Proof.
  intros Hnd Hperm r Hown.
  destruct (connect_settled key cfg sched Hnd Hperm) as (Hclients & Hreg & _).
  apply Hclients. apply Hreg in Hown as (tools & Hin & _).
  apply list_elem_of_fmap. by exists (s, tools).
Qed.



Lemma registry_owner_is_connected_witness :
  is_Some
    (mcpClients
       (connectToServers (Sample.new_client Sample.simple_and_broken) Sample.one_fails).1.1
     !! "simple").
Proof.
  pose proof (registry_owner_is_connected "sk-key" Sample.simple_and_broken
                Sample.one_fails "ECHO" "simple") as H.
  cbv zeta in H. apply H.
  - repeat constructor; set_solver.
  - apply perm_swap.
  - vm_compute. reflexivity.
Defined.

(** C1.  Two configured instances of the simple server both connect.  The
    snapshot offered to the model backend then holds every name of the
    catalog twice, so it is not free of repetitions, although the registry
    resolves each name to one owner only. *)
Theorem snapshot_repeats_colliding_name :
  name <$> allTools Sample.twice_connected
    = ["HELLO"; "ECHO"; "TIME"; "HELLO"; "ECHO"; "TIME"] ∧
  ¬ NoDup (name <$> allTools Sample.twice_connected) ∧
  tools (initial_request Sample.twice_connected "hi")
    = Some (allTools Sample.twice_connected) ∧
  toolToServerMap Sample.twice_connected !! "ECHO" = Some "simple2".
Proof.
  assert (H : name <$> allTools Sample.twice_connected
              = ["HELLO"; "ECHO"; "TIME"; "HELLO"; "ECHO"; "TIME"])
    by (vm_compute; reflexivity).
  split; [exact H|]. split; [|split].
  - rewrite H. intros Hnd. apply NoDup_cons in Hnd as [Hnotin _].
    apply Hnotin. do 2 right. left.
  - vm_compute. reflexivity.
  - vm_compute. reflexivity.
Qed.

(** ** The dispatcher *)

Section Dispatcher.

Context (w : World) (self : MCPMultiClient).

Implicit Types (hist : list Event) (toolCall : ToolUseBlock).

(** The result of a dispatch carries the id of the request. *)
Lemma format_result_id rt toolName toolUseId result part :
  format_result rt toolName toolUseId result = Ok part → tool_use_id part = toolUseId.
Proof.
  unfold format_result. intros H.
  repeat (case_match; simplify_eq; try done).
Qed.

(** On a result object, the error flag of the part is decided by the
    property [error] alone. *)
Lemma format_result_is_error rt toolName toolUseId fields part :
  format_result rt toolName toolUseId (JObj fields) = Ok part →
  is_error part = strict_eq_true (assoc "error" fields).
Proof.
  unfold format_result; simpl. intros H.
  repeat (case_match; simplify_eq; try done).
Qed.

Lemma invoke_id hist toolCall :
  tool_use_id (invoke w self hist toolCall).2 = tu_id toolCall.
Proof.
  unfold invoke.
  destruct (resolve self (tu_name toolCall)) as [client|]; [|done].
  destruct (callTool w _ client _ _) as [result|e]; [|done].
  destruct (format_result _ _ _ result) as [part|e] eqn:E; [|done].
  simpl. by eapply format_result_id.
Qed.

Lemma invoke_one_dispatch hist toolCall :
  one_dispatch toolCall (invoke w self hist toolCall).1.
Proof.
  unfold invoke, one_dispatch.
  destruct (resolve self (tu_name toolCall)) as [client|]; simpl.
  - repeat case_match; simpl; eexists _, _; (split; [reflexivity|]);
      repeat split; try done; right; by eexists.
  - eexists _, _. split; [reflexivity|]. repeat split; try done. by left.
Qed.

Lemma one_dispatch_dispatches toolCall group :
  one_dispatch toolCall group →
  dispatches group = [(tu_name toolCall, tu_id toolCall)] ∧ backend_calls group = [].
Proof.
  intros (input & tail & -> & Hd & Hb & _). split.
  - change (dispatches (_ :: tail))
      with ((tu_name toolCall, tu_id toolCall) :: dispatches tail).
    by rewrite Hd.
  - exact Hb.
Qed.

(** The loop dispatches the requests one after the other, in the order of
    the list, and yields one result per request, tagged with its id. *)
Lemma run_tools_sequential toolCalls hist :
  ∃ groups,
    (run_tools w self hist toolCalls).1 = mjoin groups ∧
    Forall2 one_dispatch toolCalls groups ∧
    tool_use_id <$> (run_tools w self hist toolCalls).2 = tu_id <$> toolCalls.
Proof.
  revert hist. induction toolCalls as [|tc tcs IH]; intros hist; simpl.
  - exists []. by repeat split.
  - pose proof (invoke_one_dispatch hist tc) as Hone.
    pose proof (invoke_id hist tc) as Hid.
    destruct (invoke w self hist tc) as [evs1 part]; simpl in *.
    destruct (IH (hist ++ evs1)) as (groups & Hev & Hall & Hids).
    destruct (run_tools w self (hist ++ evs1) tcs) as [evs2 parts]; simpl in *.
    exists (evs1 :: groups). subst. repeat split; [by constructor|by f_equal].
Qed.

Lemma groups_dispatches toolCalls groups :
  Forall2 one_dispatch toolCalls groups →
  dispatches (mjoin groups) = (fun tc => (tu_name tc, tu_id tc)) <$> toolCalls ∧
  backend_calls (mjoin groups) = [].
Proof.
  induction 1 as [|tc g tcs gs Hone _ [IH1 IH2]]; simpl; [done|].
  apply one_dispatch_dispatches in Hone as [Hd Hb].
  unfold dispatches, backend_calls in *. rewrite !omap_app, Hd, Hb, IH1, IH2. done.
Qed.

End Dispatcher.

(** C5.  A capability name without an owner in the registry, or whose owner
    has no connection in the table: the dispatch returns a result with the
    error flag set and a message naming the capability, for the same
    request id, without any remote invocation.  [invoke] has no throwing
    completion: it is a total function to a result. *)
Theorem unresolved_name_error_result
    (w : World) (self : MCPMultiClient) (hist : list Event) (toolCall : ToolUseBlock) :
  (toolToServerMap self !! tu_name toolCall = None ∨
   ∃ serverName, toolToServerMap self !! tu_name toolCall = Some serverName ∧
                 mcpClients self !! serverName = None) →
  (invoke w self hist toolCall).2 =
    mkToolResult (tu_id toolCall)
      ("Error: Tool " +:+ dq +:+ tu_name toolCall +:+ dq +:+
       " is not available or its server is disconnected.")
      true ∧
  remote_calls (invoke w self hist toolCall).1 = [].
Proof.
  intros Hmissing.
  assert (Hres : resolve self (tu_name toolCall) = None).
  { unfold resolve. destruct Hmissing as [->|(s & -> & Hs)]; [done|].
    by case_match. }
  unfold invoke. by rewrite Hres.
Qed.

Lemma unresolved_name_error_result_witness :
  is_error (invoke Sample.ps_missing Sample.twice_connected []
              (mkToolUse "toolu_02" "LIST_PROCESSES" JUndefined)).2 = true.
Proof.
  pose proof (unresolved_name_error_result Sample.ps_missing Sample.twice_connected []
                (mkToolUse "toolu_02" "LIST_PROCESSES" JUndefined)) as H.
  destruct H as [H _].
  - left. vm_compute. reflexivity.
  - rewrite H. reflexivity.
Defined.

(** C2.  The process-control server fails to list processes and returns
    its result marked [isError: true].  The remote call completes, the
    dispatch returns the text of the failure, and the error flag of the
    result is not set.  The flag is set when the same result carries the
    mark under the name [error]. *)
Theorem remote_error_mark_is_dropped :
  (invoke Sample.ps_missing Sample.process_connected [] Sample.list_call).2 =
    mkToolResult "toolu_01" "Error listing processes: spawn ps ENOENT" false ∧
  format_result Sample.rt "LIST_PROCESSES" "toolu_01" Sample.list_processes_failure_error =
    Ok (mkToolResult "toolu_01" "Error listing processes: spawn ps ENOENT" true).
Proof. split; vm_compute; reflexivity. Qed.

(** On a result object that does not have the property [error], the error
    flag of the part is never set, whatever else the object carries. *)
Lemma mark_under_other_name_ignored rt toolName toolUseId fields part :
  assoc "error" fields = JUndefined →
  format_result rt toolName toolUseId (JObj fields) = Ok part →
  is_error part = false.
Proof.
  intros Hno Hpart. apply format_result_is_error in Hpart. by rewrite Hpart, Hno.
Qed.

(** ** The conversation engine *)

Section Conversation.

Context (w : World) (self : MCPMultiClient).

Implicit Types (hist : list Event) (query : string).

Lemma trimEnd_newline s : trimEnd (s +:+ nl) = trimEnd s.
Proof.
  induction s as [|c s IH]; [done|].
  change (String c s +:+ nl) with (String c (s +:+ nl)).
  cbn [trimEnd]. by rewrite IH.
Qed.

Lemma trim_newline s : trim (s +:+ nl) = trim s.
Proof. unfold trim. by rewrite trimEnd_newline. Qed.

(** The text kept from phase 1, trimmed, is the trimmed join of the
    segments. *)
Lemma trim_initial_text (segments : list string) :
  trim (if Nat.ltb 0 (length segments) then join nl segments +:+ nl else "") =
  trim (join nl segments).
Proof.
  destruct segments as [|t segments]; [done|].
  change (Nat.ltb 0 (length (t :: segments))) with true.
  cbv iota. apply trim_newline.
Qed.

Lemma processQuery_without_tools hist query resp :
  messages_create w hist (initial_request self query) = Ok resp →
  tool_uses (resp_content resp) = [] →
  processQuery w self hist query =
    ([Call_messages_create (initial_request self query)] ++
       (if String.eqb (stop_reason resp) "tool_use" then [Warn_stop_reason] else []),
     str_or (trim (join nl (texts (resp_content resp)))) no_text_placeholder).
Proof.
  intros Hresp Hnone. unfold processQuery. rewrite Hresp, Hnone.
  by rewrite trim_initial_text.
Qed.

Lemma processQuery_with_tools hist query resp :
  messages_create w hist (initial_request self query) = Ok resp →
  tool_uses (resp_content resp) ≠ [] →
  let sent1 := [Call_messages_create (initial_request self query)] in
  let ran := run_tools w self (hist ++ sent1) (tool_uses (resp_content resp)) in
  let req2 := final_request query (resp_content resp) ran.2 in
  ∃ tail,
    (processQuery w self hist query).1 =
      sent1 ++ ran.1 ++ Call_messages_create req2 :: tail ∧
    (tail = [] ∨ ∃ e, tail = [Error_query e]).
Proof.
  intros Hresp Hsome sent1 ran req2. subst sent1 ran req2.
  unfold processQuery. rewrite Hresp.
  destruct (tool_uses (resp_content resp)) as [|tc tcs] eqn:Htc; [done|].
  destruct (run_tools w self _ (tc :: tcs)) as [evs results]; simpl.
  destruct (messages_create w _ (final_request query (resp_content resp) results))
    as [finalResponse|e]; simpl.
  - exists []. split; [|by left]. done.
  - exists [Error_query e]. split; [|right; by exists e].
    by rewrite <- !app_assoc.
Qed.

End Conversation.

Lemma dispatches_app evs1 evs2 :
  dispatches (evs1 ++ evs2) = dispatches evs1 ++ dispatches evs2.
Proof. apply omap_app. Qed.

Lemma backend_calls_app evs1 evs2 :
  backend_calls (evs1 ++ evs2) = backend_calls evs1 ++ backend_calls evs2.
Proof. apply omap_app. Qed.






(** C9.  Every query sends its phase-1 request to the model
    'claude-3-5-sonnet-20240620'; when there is a second request (the one
    carrying the tool results) it names 'claude-3-opus-20240229', a
    different model; there is never a third request. *)
Theorem phases_use_different_models
    (w : World) (self : MCPMultiClient) (hist : list Event) (query : string) :
  (∃ r1, backend_calls (processQuery w self hist query).1 = [r1] ∧
         model r1 = "claude-3-5-sonnet-20240620") ∨
  (∃ r1 r4, backend_calls (processQuery w self hist query).1 = [r1; r4] ∧
            model r1 = "claude-3-5-sonnet-20240620" ∧
            model r4 = "claude-3-opus-20240229" ∧
            model r1 ≠ model r4).
Proof.
  destruct (messages_create w hist (initial_request self query)) as [resp|e] eqn:Hresp.
  - destruct (tool_uses (resp_content resp)) as [|tc tcs] eqn:Htc.
    + left. exists (initial_request self query).
      rewrite (processQuery_without_tools w self hist query resp Hresp Htc).
      split; [|done]. by destruct (String.eqb (stop_reason resp) "tool_use").
    + right.
      assert (Hsome : tool_uses (resp_content resp) ≠ []) by by rewrite Htc.
      destruct (processQuery_with_tools w self hist query resp Hresp Hsome)
        as (tail & Htrace & Htail).
      destruct (run_tools_sequential w self (tool_uses (resp_content resp))
                  (hist ++ [Call_messages_create (initial_request self query)]))
        as (groups & Hev & Hall & _).
      destruct (groups_dispatches _ _ Hall) as [_ Hb].
      cbv zeta in Htrace. rewrite Hev in Htrace.
      eexists (initial_request self query), _. split.
      * rewrite Htrace, !backend_calls_app, Hb.
        change (backend_calls (Call_messages_create ?r :: tail))
          with (r :: backend_calls tail).
        by destruct Htail as [->|[e ->]].
      * by repeat split.
  - left. exists (initial_request self query). unfold processQuery. by rewrite Hresp.
Qed.

(** ** The exit of [main] *)

Section Exit.

Context (h : Host) (w : World).

Lemma loadConfig_rejected self path :
  unreadable h path ∨ malformed h path ∨ schema_invalid h path →
  ∃ e, loadConfig h self path = (self, [Error_load_config path e], Throws e).
Proof.
  unfold loadConfig.
  intros [[e He]|[(data & e & Hd & He)|(data & raw & Hd & Hr & Hs)]].
  - exists e. by rewrite He.
  - exists e. by rewrite Hd, He.
  - exists (mkError (zod_message h raw)). by rewrite Hd, Hr, Hs.
Qed.

(** The configuration file exists and the credential is set, and the file
    is rejected: the failure is reported, the (empty) connection table is
    closed, and the process exits with code 0; no line of the user is read
    and the backend is never called. *)
Lemma main_config_rejected self :
  existsSync h (configFile h) = true → constructor h = Ok self →
  unreadable h (configFile h) ∨ malformed h (configFile h)
    ∨ schema_invalid h (configFile h) →
  ∃ e, main h w =
         ([Error_load_config (configFile h) e; Error_unhandled e;
           Call_close (dom (mcpClients self))],
          Exits 0).
Proof.
  intros Hex Hnew Hrej.
  destruct (loadConfig_rejected self (configFile h) Hrej) as [e He].
  exists e. unfold main, session. fold (configFile h).
  by rewrite Hex, Hnew, He.
Qed.

(** The sibling paths: a missing file exits with code 1 at once. *)
Lemma main_missing_file :
  existsSync h (configFile h) = false →
  main h w = ([Error_config_not_found (configFile h)], Exits 1).
Proof. intros Hex. unfold main. fold (configFile h). by rewrite Hex. Qed.

(** A missing credential makes the constructor throw outside the [try]
    block: [main] rejects before anything else happens. *)
Lemma main_missing_credential :
  existsSync h (configFile h) = true →
  ANTHROPIC_API_KEY h = None ∨ ANTHROPIC_API_KEY h = Some "" →
  main h w = ([], Throws (mkError "ANTHROPIC_API_KEY is not set in .env file")).
Proof.
  intros Hex Hkey. unfold main, constructor. fold (configFile h). rewrite Hex.
  by destruct Hkey as [->| ->].
Qed.

End Exit.

(** C3.  A configuration file that exists and is rejected by the schema,
    and one that exists and cannot be read: in both runs the credential is
    set, the failure is reported, no line of the user is read, and the
    process exits with code 0.  (A missing file exits with code 1.) *)
Theorem rejected_config_exits_zero :
  main Sample.invalid_config_host Sample.clock =
    ([Error_load_config "mcp-servers.json" (mkError "mcpServers: Required");
      Error_unhandled (mkError "mcpServers: Required");
      Call_close ∅],
     Exits 0) ∧
  schema_invalid Sample.invalid_config_host "mcp-servers.json" ∧
  main Sample.unreadable_config_host Sample.clock =
    ([Error_load_config "mcp-servers.json" (mkError "EACCES: permission denied");
      Error_unhandled (mkError "EACCES: permission denied");
      Call_close ∅],
     Exits 0) ∧
  unreadable Sample.unreadable_config_host "mcp-servers.json" ∧
  main Sample.no_config_host Sample.clock =
    ([Error_config_not_found "mcp-servers.json"], Exits 1).
Proof.
  split; [vm_compute; reflexivity|].
  split; [exists "{}", (JObj []); by repeat split|].
  split; [vm_compute; reflexivity|].
  split; [by eexists|].
  vm_compute. reflexivity.
Qed.

(** * Further properties of the client *)

(** ** The registry over any number of servers *)

Section RegistryGeneral.

Implicit Types (self : MCPMultiClient) (n s : string) (m : gmap string string)
  (sched : list (string * Result (list ToolInfo))).

Lemma last_owner_listed sched n :
  is_Some (last_owner n sched) ↔ n ∈ registered_names sched.
Proof.
  induction sched as [|[s [tools|e]] sched IH]; simpl.
  - split; [by intros [? ?]|]. intros H. by apply elem_of_nil in H.
  - unfold registered_names, succeeded in *. simpl. rewrite elem_of_app, <- IH.
    destruct (last_owner n sched) as [o|].
    + split; [right|]; eauto.
    + case_bool_decide as Hn.
      * split; [by left|eauto].
      * split; [by intros [? ?]|]. intros [?|[? ?]]; done.
  - exact IH.
Qed.

(** The registry after a schedule: the last successful lister of a name
    owns it, and a name listed by nobody keeps its owner. *)
Lemma settle_all_lookup self sched n :
  toolToServerMap (settle_all self sched).1 !! n =
  match last_owner n sched with
  | Some o => Some o
  | None => toolToServerMap self !! n
  end.
Proof.
  revert self. induction sched as [|[s [tools|e]] sched IH]; intros self.
  - done.
  - rewrite settle_all_cons_state, IH, settle_ok. simpl.
    destruct (last_owner n sched) as [o|]; [done|].
    rewrite register_tools_lookup.
    case_bool_decide; by case_decide.
  - rewrite settle_all_cons_state, IH, settle_err. done.
Qed.

Lemma count_name_cons n x names :
  count_name n (x :: names) = (if decide (x = n) then 1 else 0) + count_name n names.
Proof. unfold count_name. rewrite filter_cons. by case_decide. Qed.

Lemma count_name_app n names1 names2 :
  count_name n (names1 ++ names2) = count_name n names1 + count_name n names2.
Proof. unfold count_name. by rewrite filter_app, length_app. Qed.

Lemma count_name_pos n names : 0 < count_name n names ↔ n ∈ names.
Proof.
  induction names as [|x names IH].
  - split; [by intros ?%Nat.lt_irrefl|]. intros H. by apply elem_of_nil in H.
  - rewrite count_name_cons, elem_of_cons. case_decide; [subst|].
    + split; [by left|lia].
    + rewrite <- IH. split; [right; lia|]. intros [?|?]; [congruence|lia].
Qed.

Lemma register_tools_warning_count s (tools : list ToolInfo) m n :
  length (dup_warnings n (register_tools s tools m).1.2) =
  count_name n (ti_name <$> tools) - (if m !! n is Some _ then 0 else 1).
Proof.
  revert m. induction tools as [|t tools IH]; intros m.
  - simpl. by destruct (m !! n).
  - cbn [register_tools].
    pose proof (register_tool_warnings s m t n) as Hw.
    pose proof (register_tool_map s m t) as Hm.
    destruct (register_tool s m t) as [[m1 e1] t1]; simpl in Hw, Hm.
    specialize (IH m1).
    destruct (register_tools s tools m1) as [[m2 e2] ts]; simpl in IH |- *.
    rewrite dup_warnings_app, length_app, Hw, IH, count_name_cons. subst m1.
    change (list_fmap _ _ ti_name tools) with (ti_name <$> tools).
    destruct (String.eqb_spec (ti_name t) n) as [->|Hne].
    + rewrite lookup_insert_eq, decide_True by done.
      destruct (m !! n); simpl; lia.
    + rewrite lookup_insert_ne, decide_False by done. simpl. lia.
Qed.

Lemma listings_cons_ok n s (tools : list ToolInfo) sched :
  listings n ((s, Ok tools) :: sched) = count_name n (ti_name <$> tools) + listings n sched.
Proof. unfold listings, registered_names, succeeded. simpl. apply count_name_app. Qed.

Lemma settle_all_warning_count self sched n :
  length (dup_warnings n (settle_all self sched).2) =
  listings n sched - (if toolToServerMap self !! n is Some _ then 0 else 1).
Proof.
  revert self. induction sched as [|[s [tools|e]] sched IH]; intros self.
  - simpl. by destruct (toolToServerMap self !! n).
  - rewrite settle_all_cons_events, dup_warnings_app, length_app, IH, listings_cons_ok.
    rewrite settle_ok; simpl. rewrite register_tools_warning_count, register_tools_lookup.
    pose proof (count_name_pos n (ti_name <$> tools)) as Hpos.
    destruct (decide (n ∈ ti_name <$> tools)) as [Hin|Hout].
    + apply Hpos in Hin. destruct (toolToServerMap self !! n); lia.
    + assert (count_name n (ti_name <$> tools) = 0) as ->.
      { destruct (count_name n (ti_name <$> tools)) eqn:E; [done|].
        exfalso. apply Hout, Hpos. lia. }
      destruct (toolToServerMap self !! n); lia.
  - rewrite settle_all_cons_events, dup_warnings_app, length_app, IH.
    rewrite settle_err. simpl. done.
Qed.

Lemma register_tool_convert s m t : (register_tool s m t).2 = convert s t.
Proof. unfold convert, register_tool. by repeat case_match; simplify_eq. Qed.

Lemma register_tools_convert s (tools : list ToolInfo) m :
  (register_tools s tools m).2 = convert s <$> tools.
Proof.
  revert m. induction tools as [|t tools IH]; intros m; [done|].
  cbn [register_tools].
  pose proof (register_tool_convert s m t) as Hc.
  destruct (register_tool s m t) as [[m1 e1] t1]; simpl in Hc.
  specialize (IH m1).
  destruct (register_tools s tools m1) as [[m2 e2] ts]; simpl in IH |- *.
  by rewrite Hc, IH.
Qed.

Lemma settle_all_tools self sched :
  allTools (settle_all self sched).1 = allTools self ++ registered_tools sched.
Proof.
  revert self. induction sched as [|[s [tools|e]] sched IH]; intros self.
  - simpl. by rewrite app_nil_r.
  - rewrite settle_all_cons_state, IH, settle_ok. simpl.
    rewrite register_tools_convert. unfold registered_tools, succeeded. simpl.
    by rewrite <- app_assoc.
  - rewrite settle_all_cons_state, IH, settle_err. done.
Qed.

Lemma settle_all_transports self sched s :
  transports (settle_all self sched).1 !! s =
  if decide (s ∈ failed sched) then None else transports self !! s.
Proof.
  revert self. induction sched as [|[a [tools|e]] sched IH]; intros self.
  - simpl. destruct (decide (s ∈ failed [])) as [H|H]; [by apply elem_of_nil in H|done].
  - rewrite settle_all_cons_state, IH, settle_ok. done.
  - rewrite settle_all_cons_state, IH, settle_err. simpl.
    change (failed ((a, Err e) :: sched)) with (a :: failed sched).
    destruct (decide (s ∈ failed sched)) as [H1|H1];
      destruct (decide (s ∈ a :: failed sched)) as [H2|H2]; try done.
    + set_solver.
    + apply elem_of_cons in H2 as [->|?]; [apply lookup_delete_eq|done].
    + rewrite lookup_delete_ne; [done|]. set_solver.
Qed.

End RegistryGeneral.

Section Listers.

Implicit Types (n s : string) (sched : list (string * Result (list ToolInfo))).

Lemma registered_names_cons_ok s (tools : list ToolInfo) sched :
  registered_names ((s, Ok tools) :: sched) = (ti_name <$> tools) ++ registered_names sched.
Proof. done. Qed.

Lemma registered_names_cons_err s e sched :
  registered_names ((s, Err e) :: sched) = registered_names sched.
Proof. done. Qed.

Lemma lister_registered sched n s (tools : list ToolInfo) :
  (s, Ok tools) ∈ sched → n ∈ ti_name <$> tools → n ∈ registered_names sched.
Proof.
  induction sched as [|[a [t|e]] sched IH]; intros Hin Hn.
  - by apply elem_of_nil in Hin.
  - rewrite registered_names_cons_ok, elem_of_app.
    apply elem_of_cons in Hin as [Heq|Hin]; [simplify_eq; by left|right; auto].
  - rewrite registered_names_cons_err.
    apply elem_of_cons in Hin as [Heq|Hin]; [simplify_eq|auto].
Qed.

Lemma last_owner_lists sched n o :
  last_owner n sched = Some o →
  ∃ tools : list ToolInfo, (o, Ok tools) ∈ sched ∧ n ∈ ti_name <$> tools.
Proof.
  induction sched as [|[a [t|e]] sched IH]; simpl; intros Ho; [done| |].
  - destruct (last_owner n sched) as [o'|].
    + simplify_eq. destruct (IH eq_refl) as (tools & Hin & Hn).
      exists tools. split; [by right|done].
    + case_bool_decide; simplify_eq. exists t. split; [left|done].
  - destruct (IH Ho) as (tools & Hin & Hn). exists tools. split; [by right|done].
Qed.

(** When no name is listed twice, a name has one lister. *)
Lemma unique_lister sched n o1 o2 :
  NoDup (registered_names sched) →
  (∃ tools : list ToolInfo, (o1, Ok tools) ∈ sched ∧ n ∈ ti_name <$> tools) →
  (∃ tools : list ToolInfo, (o2, Ok tools) ∈ sched ∧ n ∈ ti_name <$> tools) →
  o1 = o2.
Proof.
  induction sched as [|[a [t|e]] sched IH]; intros Hnd (t1 & Hin1 & Hn1) (t2 & Hin2 & Hn2).
  - by apply elem_of_nil in Hin1.
  - rewrite registered_names_cons_ok in Hnd.
    apply NoDup_app in Hnd as (_ & Hdisj & Hnd).
    apply elem_of_cons in Hin1 as [Heq1|Hin1]; apply elem_of_cons in Hin2 as [Heq2|Hin2].
    + by simplify_eq.
    + simplify_eq. exfalso. eapply Hdisj; [exact Hn1|]. by eapply lister_registered.
    + simplify_eq. exfalso. eapply Hdisj; [exact Hn2|]. by eapply lister_registered.
    + apply IH; [done|by exists t1|by exists t2].
  - rewrite registered_names_cons_err in Hnd.
    apply elem_of_cons in Hin1 as [Heq1|Hin1]; [simplify_eq|].
    apply elem_of_cons in Hin2 as [Heq2|Hin2]; [simplify_eq|].
    apply IH; [done|by exists t1|by exists t2].
Qed.

End Listers.

Section ConnectGeneral.

Implicit Types (self : MCPMultiClient) (n s : string)
  (sched : list (string * Result (list ToolInfo))).

(** [connectToServers] on a client with a loaded configuration: the state
    it leaves and the events it emits, in terms of the settling. *)
Lemma connect_unfold self cfg sched :
  serverConfigs self = Some cfg →
  (connectToServers self sched).1.1 =
    (settle_all (foldl open_connection self (mcpServers cfg)) sched).1 ∧
  ∃ tail, (connectToServers self sched).1.2 =
            (settle_all (foldl open_connection self (mcpServers cfg)) sched).2 ++ tail ∧
          (tail = [] ∨ tail = [Error_no_servers]).
Proof.
  intros Hcfg. unfold connectToServers. rewrite Hcfg.
  destruct (settle_all _ sched) as [settled evs]. case_match; simpl.
  - split; [done|]. exists [Error_no_servers]. split; [done|by right].
  - split; [done|]. exists []. split; [by rewrite app_nil_r|by left].
Qed.

Lemma open_connections_value entries self s :
  s ∈ entries.*1 →
  mcpClients (foldl open_connection self entries) !! s
    = Some (mkClient ("mcp-multi-client-" +:+ s) "1.0.0").
Proof.
  revert self. induction entries as [|[k c] entries IH] using rev_ind; intros self Hin.
  - by apply elem_of_nil in Hin.
  - rewrite foldl_app. simpl. unfold open_connection at 1; simpl.
    destruct (decide (s = k)) as [->|Hne].
    + by rewrite lookup_insert_eq.
    + rewrite lookup_insert_ne by done. apply IH.
      rewrite fmap_app in Hin. set_solver.
Qed.

Lemma convert_name s t : name (convert s t) = ti_name t.
Proof. unfold convert. apply register_tool_name. Qed.

Lemma registered_tools_names sched :
  name <$> registered_tools sched = registered_names sched.
Proof.
  unfold registered_tools, registered_names.
  induction (succeeded sched) as [|[s tools] l IH]; [done|].
  change (name <$> ((convert s <$> tools) ++
            mjoin ((fun p : string * list ToolInfo => convert p.1 <$> p.2) <$> l))
          = (ti_name <$> tools) ++
            mjoin ((fun p : string * list ToolInfo => ti_name <$> p.2) <$> l)).
  rewrite fmap_app, IH. f_equal.
  rewrite <- list_fmap_compose. apply list_fmap_ext. intros i t _. apply convert_name.
Qed.

Lemma convert_schema s t :
  input_schema (convert s t) =
  if (truthy (ti_inputSchema t) && typeof_object (ti_inputSchema t))%bool
  then ti_inputSchema t else default_schema.
Proof.
  unfold convert, register_tool.
  destruct (truthy (ti_inputSchema t)); destruct (typeof_object (ti_inputSchema t)); done.
Qed.

Lemma convert_description s t :
  description (convert s t) =
  str_or (default "" (ti_description t))
         ("Tool " +:+ ti_name t +:+ " from server " +:+ s).
Proof.
  unfold convert, register_tool.
  destruct (truthy (ti_inputSchema t)); destruct (typeof_object (ti_inputSchema t)); done.
Qed.

(** The descriptor offered for a tool always has a description and an
    object as schema. *)
Lemma convert_well_formed s t :
  description (convert s t) ≠ "" ∧
  truthy (input_schema (convert s t)) = true ∧
  typeof_object (input_schema (convert s t)) = true.
Proof.
  rewrite convert_schema, convert_description. split.
  - unfold str_or. by destruct (String.eqb_spec (default "" (ti_description t)) "").
  - destruct (truthy (ti_inputSchema t)) eqn:Ht;
      destruct (typeof_object (ti_inputSchema t)) eqn:Ho; simpl; by rewrite ?Ht, ?Ho.
Qed.

End ConnectGeneral.

(** X1.  After connection establishment on a new client, whatever the
    number of servers and the order in which they settle, a capability name
    resolves to the last successful attempt that lists it, and a name that
    no successful attempt lists does not resolve. *)
Theorem registry_resolves_to_last_lister
    (key : string) (cfg : McpServerConfig)
    (sched : list (string * Result (list ToolInfo))) (n : string) :
  toolToServerMap (connectToServers (mkMulti key (Some cfg) ∅ ∅ [] ∅) sched).1.1 !! n
    = last_owner n sched.
Proof.
  destruct (connect_unfold (mkMulti key (Some cfg) ∅ ∅ [] ∅) cfg sched eq_refl) as [-> _].
  rewrite settle_all_lookup, (proj1 (open_connections_registry _ _)). simpl.
  rewrite lookup_empty. by destruct (last_owner n sched).
Qed.

(** X2.  After connection establishment on a new client, the number of
    collision warnings about a name is the number of times successful
    attempts list it, less one: every listing but the first warns,
    including a second listing by the same server. *)
Theorem one_warning_per_repeated_listing
    (key : string) (cfg : McpServerConfig)
    (sched : list (string * Result (list ToolInfo))) (n : string) :
  length (dup_warnings n
            (connectToServers (mkMulti key (Some cfg) ∅ ∅ [] ∅) sched).1.2)
    = listings n sched - 1.
Proof.
  destruct (connect_unfold (mkMulti key (Some cfg) ∅ ∅ [] ∅) cfg sched eq_refl)
    as [_ (tail & -> & Htail)].
  rewrite dup_warnings_app, length_app, settle_all_warning_count.
  rewrite (proj1 (open_connections_registry _ _)). simpl. rewrite lookup_empty.
  destruct Htail as [-> | ->]; simpl; lia.
Qed.

(** X3.  The order in which the attempts settle matters only for the order
    of the snapshot and for the owner of a colliding name: two settling
    orders of the same attempts leave the same connections and transports
    and the same descriptors up to order, and the same registry when no
    name is listed twice. *)
Theorem settling_order_independence
    (self : MCPMultiClient) (sched1 sched2 : list (string * Result (list ToolInfo))) :
  sched1 ≡ₚ sched2 →
  mcpClients (settle_all self sched1).1 = mcpClients (settle_all self sched2).1 ∧
  transports (settle_all self sched1).1 = transports (settle_all self sched2).1 ∧
  allTools (settle_all self sched1).1 ≡ₚ allTools (settle_all self sched2).1 ∧
  (NoDup (registered_names sched1) →
   toolToServerMap (settle_all self sched1).1 = toolToServerMap (settle_all self sched2).1).
Proof.
  intros Hperm.
  assert (Hfailed : ∀ s, s ∈ failed sched1 ↔ s ∈ failed sched2).
  { intros s. unfold failed. by rewrite Hperm. }
  split; [|split; [|split]].
  - apply map_eq. intros s. rewrite !settle_all_clients.
    destruct (decide (s ∈ failed sched1)) as [H1|H1];
      destruct (decide (s ∈ failed sched2)) as [H2|H2];
      [done|exfalso; apply H2, Hfailed, H1|exfalso; apply H1, Hfailed, H2|done].
  - apply map_eq. intros s. rewrite !settle_all_transports.
    destruct (decide (s ∈ failed sched1)) as [H1|H1];
      destruct (decide (s ∈ failed sched2)) as [H2|H2];
      [done|exfalso; apply H2, Hfailed, H1|exfalso; apply H1, Hfailed, H2|done].
  - rewrite !settle_all_tools. unfold registered_tools, succeeded. by rewrite Hperm.
  - intros Hnd. apply map_eq. intros n. rewrite !settle_all_lookup.
    assert (Hlisted : is_Some (last_owner n sched1) ↔ is_Some (last_owner n sched2)).
    { rewrite !last_owner_listed. unfold registered_names, succeeded. by rewrite Hperm. }
    destruct (last_owner n sched1) as [o1|] eqn:E1;
      destruct (last_owner n sched2) as [o2|] eqn:E2; try done.
    + f_equal. eapply (unique_lister sched1 n); [done| |].
      * by apply last_owner_lists.
      * apply last_owner_lists in E2 as (tools & Hin & Hn).
        exists tools. split; [|done]. by rewrite Hperm.
    + destruct Hlisted as [Hl _]. by destruct Hl as [? ?]; [eexists|].
    + destruct Hlisted as [_ Hl]. by destruct Hl as [? ?]; [eexists|].
Qed.

Lemma settling_order_independence_witness :
  mcpClients (settle_all (Sample.new_client Sample.simple_and_broken)
                [("broken", Err (mkError "spawn no-such-command ENOENT"));
                 ("simple", Ok Sample.simple_catalog)]).1
  = mcpClients (settle_all (Sample.new_client Sample.simple_and_broken)
                  [("simple", Ok Sample.simple_catalog);
                   ("broken", Err (mkError "spawn no-such-command ENOENT"))]).1.
Proof.
  pose proof (settling_order_independence (Sample.new_client Sample.simple_and_broken)
                [("broken", Err (mkError "spawn no-such-command ENOENT"));
                 ("simple", Ok Sample.simple_catalog)]
                [("simple", Ok Sample.simple_catalog);
                 ("broken", Err (mkError "spawn no-such-command ENOENT"))]) as H.
  destruct H as (H & _).
  - apply perm_swap.
  - exact H.
Defined.

Section Snapshot.

Implicit Types (n s : string) (sched : list (string * Result (list ToolInfo))).

Lemma connect_snapshot key cfg sched :
  allTools (connectToServers (mkMulti key (Some cfg) ∅ ∅ [] ∅) sched).1.1
    = registered_tools sched.
Proof.
  destruct (connect_unfold (mkMulti key (Some cfg) ∅ ∅ [] ∅) cfg sched eq_refl) as [-> _].
  by rewrite settle_all_tools, (proj2 (open_connections_registry _ _)).
Qed.

Lemma connect_registry key cfg sched n :
  toolToServerMap (connectToServers (mkMulti key (Some cfg) ∅ ∅ [] ∅) sched).1.1 !! n
    = last_owner n sched.
Proof.
  destruct (connect_unfold (mkMulti key (Some cfg) ∅ ∅ [] ∅) cfg sched eq_refl) as [-> _].
  rewrite settle_all_lookup, (proj1 (open_connections_registry _ _)). simpl.
  rewrite lookup_empty. by destruct (last_owner n sched).
Qed.

Lemma connect_client key cfg sched s (tools : list ToolInfo) :
  NoDup (mcpServers cfg).*1 → sched.*1 ≡ₚ (mcpServers cfg).*1 →
  (s, Ok tools) ∈ sched →
  mcpClients (connectToServers (mkMulti key (Some cfg) ∅ ∅ [] ∅) sched).1.1 !! s
    = Some (mkClient ("mcp-multi-client-" +:+ s) "1.0.0").
Proof.
  intros Hnd Hperm Hin.
  destruct (connect_unfold (mkMulti key (Some cfg) ∅ ∅ [] ∅) cfg sched eq_refl) as [-> _].
  rewrite settle_all_clients, decide_False.
  - apply open_connections_value. simpl. rewrite <- Hperm.
    apply list_elem_of_fmap. by exists (s, Ok tools).
  - eapply succeeded_not_failed; [|done]. by rewrite Hperm.
Qed.

Lemma registered_tools_elem sched t :
  t ∈ registered_tools sched →
  ∃ s (tools : list ToolInfo) mcpTool,
    (s, Ok tools) ∈ sched ∧ mcpTool ∈ tools ∧ t = convert s mcpTool.
Proof.
  unfold registered_tools.
  intros (l & Ht & Hl)%list_elem_of_join.
  apply list_elem_of_fmap in Hl as ([s tools] & -> & Hin%succeeded_elem).
  apply list_elem_of_fmap in Ht as (mcpTool & -> & Hm). by exists s, tools, mcpTool.
Qed.

Lemma invoke_unresolved w self hist toolCall :
  resolve self (tu_name toolCall) = None →
  (invoke w self hist toolCall).2 =
    mkToolResult (tu_id toolCall)
      ("Error: Tool " +:+ dq +:+ tu_name toolCall +:+ dq +:+
       " is not available or its server is disconnected.") true ∧
  remote_calls (invoke w self hist toolCall).1 = [].
Proof. intros Hres. unfold invoke. by rewrite Hres. Qed.

Lemma invoke_resolved w self hist toolCall client :
  resolve self (tu_name toolCall) = Some client →
  remote_calls (invoke w self hist toolCall).1 = [(client, tu_name toolCall)].
Proof.
  intros Hres. unfold invoke. rewrite Hres.
  destruct (callTool w _ client _ _) as [result|e]; [|done].
  by destruct (format_result _ _ _ result).
Qed.

End Snapshot.

(** X4.  After connection establishment on a new client the registry and
    the snapshot agree on the names: a name resolves to an owner exactly
    when a descriptor of that name is offered to the model backend. *)
Theorem snapshot_names_are_registry_keys
    (key : string) (cfg : McpServerConfig)
    (sched : list (string * Result (list ToolInfo))) (n : string) :
  is_Some (toolToServerMap
             (connectToServers (mkMulti key (Some cfg) ∅ ∅ [] ∅) sched).1.1 !! n)
  ↔ n ∈ name <$> allTools (connectToServers (mkMulti key (Some cfg) ∅ ∅ [] ∅) sched).1.1.
Proof.
  rewrite connect_registry, connect_snapshot, registered_tools_names.
  apply last_owner_listed.
Qed.

(** X5.  Every descriptor offered to the model backend has a non-empty
    description and an object as input schema, whatever the servers listed:
    a missing or empty description is replaced by a generated one, and a
    schema that is missing or not an object by the empty object schema. *)
Theorem offered_descriptors_well_formed
    (key : string) (cfg : McpServerConfig)
    (sched : list (string * Result (list ToolInfo))) :
  Forall (fun t => description t ≠ "" ∧
                   truthy (input_schema t) = true ∧
                   typeof_object (input_schema t) = true)
         (allTools (connectToServers (mkMulti key (Some cfg) ∅ ∅ [] ∅) sched).1.1).
Proof.
  rewrite connect_snapshot. apply Forall_forall. intros t Ht.
  apply registered_tools_elem in Ht as (s & tools & mcpTool & _ & _ & ->).
  apply convert_well_formed.
Qed.

(** X6.  A server configured under the empty name connects and its tools
    are offered to the model backend, but they cannot be invoked: when it
    is the only lister of a name, dispatching that name returns the
    "not available" error result and makes no remote call. *)
Theorem nameless_server_tools_unreachable
    (key : string) (cfg : McpServerConfig)
    (sched : list (string * Result (list ToolInfo)))
    (tools : list ToolInfo) (n : string)
    (w : World) (hist : list Event) (toolUseId : string) (input : JsVal) :
  ("", Ok tools) ∈ sched → n ∈ ti_name <$> tools →
  (∀ s (tools' : list ToolInfo),
     (s, Ok tools') ∈ sched → n ∈ ti_name <$> tools' → s = "") →
  n ∈ name <$> allTools (connectToServers (mkMulti key (Some cfg) ∅ ∅ [] ∅) sched).1.1 ∧
  (invoke w (connectToServers (mkMulti key (Some cfg) ∅ ∅ [] ∅) sched).1.1 hist
     (mkToolUse toolUseId n input)).2 =
    mkToolResult toolUseId
      ("Error: Tool " +:+ dq +:+ n +:+ dq +:+
       " is not available or its server is disconnected.") true ∧
  remote_calls
    (invoke w (connectToServers (mkMulti key (Some cfg) ∅ ∅ [] ∅) sched).1.1 hist
       (mkToolUse toolUseId n input)).1 = [].
Proof.
  intros Hin Hn Honly.
  assert (Hlisted : n ∈ registered_names sched) by by eapply lister_registered.
  split.
  - by rewrite connect_snapshot, registered_tools_names.
  - apply (invoke_unresolved w _ hist (mkToolUse toolUseId n input)).
    unfold resolve; simpl. rewrite connect_registry.
    apply last_owner_listed in Hlisted as [o Ho]. rewrite Ho.
    apply last_owner_lists in Ho as (tools' & Hin' & Hn').
    by rewrite (Honly o tools' Hin' Hn').
Qed.

(** X7.  When no server is configured under the empty name and every
    configured server settles once, every descriptor in the snapshot can be
    invoked: its name resolves to the client of a server that connected and
    lists it, and dispatching it makes exactly one remote call, on that
    client. *)
Theorem offered_tool_is_dispatched
    (key : string) (cfg : McpServerConfig)
    (sched : list (string * Result (list ToolInfo))) (t : Tool)
    (w : World) (hist : list Event) (toolUseId : string) (input : JsVal) :
  NoDup (mcpServers cfg).*1 → sched.*1 ≡ₚ (mcpServers cfg).*1 →
  "" ∉ (mcpServers cfg).*1 →
  t ∈ allTools (connectToServers (mkMulti key (Some cfg) ∅ ∅ [] ∅) sched).1.1 →
  ∃ s (tools : list ToolInfo),
    (s, Ok tools) ∈ sched ∧ name t ∈ ti_name <$> tools ∧
    resolve (connectToServers (mkMulti key (Some cfg) ∅ ∅ [] ∅) sched).1.1 (name t)
      = Some (mkClient ("mcp-multi-client-" +:+ s) "1.0.0") ∧
    remote_calls
      (invoke w (connectToServers (mkMulti key (Some cfg) ∅ ∅ [] ∅) sched).1.1 hist
         (mkToolUse toolUseId (name t) input)).1
      = [(mkClient ("mcp-multi-client-" +:+ s) "1.0.0", name t)].
Proof.
  intros Hnd Hperm Hnonempty Ht.
  assert (Hlisted : name t ∈ registered_names sched).
  { rewrite <- registered_tools_names, <- (connect_snapshot key cfg).
    by apply list_elem_of_fmap_2. }
  apply last_owner_listed in Hlisted as [o Ho].
  destruct (last_owner_lists _ _ _ Ho) as (tools & Hin & Hn).
  assert (Hres : resolve (connectToServers (mkMulti key (Some cfg) ∅ ∅ [] ∅) sched).1.1
                   (name t) = Some (mkClient ("mcp-multi-client-" +:+ o) "1.0.0")).
  { unfold resolve. rewrite connect_registry, Ho.
    destruct (String.eqb_spec o "") as [->|_].
    - exfalso. apply Hnonempty. rewrite <- Hperm.
      apply list_elem_of_fmap. by exists ("", Ok tools).
    - by eapply connect_client. }
  exists o, tools. split; [done|]. split; [done|]. split; [done|].
  by apply (invoke_resolved w _ hist (mkToolUse toolUseId (name t) input)).
Qed.

Lemma nameless_server_tools_unreachable_witness :
  is_error
    (invoke Sample.clock
       (connectToServers (Sample.new_client Cases.nameless) Cases.nameless_connects).1.1
       [] (mkToolUse "toolu_01" "TIME" JUndefined)).2 = true.
Proof.
  pose proof (nameless_server_tools_unreachable "sk-key" Cases.nameless
                Cases.nameless_connects Sample.simple_catalog "TIME"
                Sample.clock [] "toolu_01" JUndefined) as H.
  destruct H as (_ & H & _).
  - left.
  - do 2 right. left.
  - intros s tools' Hin _. apply list_elem_of_singleton in Hin. by simplify_eq.
  - unfold Sample.new_client. rewrite H. reflexivity.
Defined.

Lemma offered_tool_is_dispatched_witness :
  ∃ s, resolve
         (connectToServers (Sample.new_client Sample.simple_and_broken)
            Sample.one_fails).1.1
         (name (convert "simple" Sample.ECHO))
       = Some (mkClient ("mcp-multi-client-" +:+ s) "1.0.0").
Proof.
  pose proof (offered_tool_is_dispatched "sk-key" Sample.simple_and_broken
                Sample.one_fails (convert "simple" Sample.ECHO)
                Sample.clock [] "toolu_01" JUndefined) as H.
  destruct H as (s & tools & _ & _ & H & _).
  - repeat constructor; set_solver.
  - apply perm_swap.
  - vm_compute. intros H. repeat (apply elem_of_cons in H as [H|H]; [discriminate|]).
    by apply elem_of_nil in H.
  - vm_compute. right. left.
  - exists s. exact H.
Defined.

(** ** The normalisation of tool results *)

Section Normalisation.

Context (rt : Runtime).

Lemma find_text_readable items :
  Forall (fun c => readable c = true) items →
  find_text rt items = Ok (default JUndefined (first_text_block items)).
Proof.
  induction 1 as [|c items Hc _ IH]; [done|].
  cbn [find_text first_text_block].
  destruct c as [| |b|z|s|l|block]; try done; simpl; try exact IH.
  destruct (strict_eq_str (assoc "type" block) "text"); [done|exact IH].
Qed.

Lemma first_text_block_obj items c :
  first_text_block items = Some c → ∃ block, c = JObj block.
Proof.
  induction items as [|x items IH]; [done|]. simpl.
  destruct (is_text_block x) eqn:Hx; [|exact IH].
  intros [= <-]. destruct x; try done. by eexists.
Qed.

End Normalisation.

(** X8.  A result object whose content is a non-empty array without null
    elements is normalised without failure: the text handed back is the
    [text] of the first block of type 'text' when that is a string, and the
    serialised content otherwise (also when a later text block has a string
    text); the error flag is set exactly when the result's [error] is
    [true]. *)
Theorem content_is_normalised
    (rt : Runtime) (toolName toolUseId : string)
    (fields : list (string * JsVal)) (c : JsVal) (rest : list JsVal) :
  assoc "content" fields = JArr (c :: rest) →
  Forall (fun x => readable x = true) (c :: rest) →
  format_result rt toolName toolUseId (JObj fields) =
    Ok (mkToolResult toolUseId (normalised_text rt (c :: rest))
          (strict_eq_true (assoc "error" fields))).
Proof.
  intros Hcontent Hreadable. unfold format_result, normalised_text.
  cbn [get]. rewrite Hcontent, (find_text_readable rt _ Hreadable).
  destruct (first_text_block (c :: rest)) as [b|] eqn:Hfirst; [|done].
  destruct (first_text_block_obj _ _ Hfirst) as [block ->]. simpl.
  by destruct (assoc "text" block).
Qed.

Lemma content_is_normalised_witness :
  format_result Sample.rt "READ" "toolu_01" Cases.mixed_content =
    Ok (mkToolResult "toolu_01" "first" false).
Proof.
  pose proof (content_is_normalised Sample.rt "READ" "toolu_01"
                [("content",
                  JArr [JObj [("type", JStr "image"); ("data", JStr "AAAA")];
                        JObj [("type", JStr "text"); ("text", JStr "first")];
                        JObj [("type", JStr "text"); ("text", JStr "second")]])]
                (JObj [("type", JStr "image"); ("data", JStr "AAAA")])
                [JObj [("type", JStr "text"); ("text", JStr "first")];
                 JObj [("type", JStr "text"); ("text", JStr "second")]]) as H.
  apply H.
  - reflexivity.
  - repeat constructor.
Defined.

(** X9.  A result object without usable content (no content, an empty
    array, or something that is not an array) is answered with a fixed
    sentence: "reported an error" when the result's [error] is truthy,
    "executed" otherwise.  The error flag follows [error === true] only, so
    a truthy [error] that is not [true] gives the error sentence with the
    flag unset. *)
Theorem result_without_content
    (rt : Runtime) (toolName toolUseId : string) (fields : list (string * JsVal)) :
  (∀ c rest, assoc "content" fields ≠ JArr (c :: rest)) →
  format_result rt toolName toolUseId (JObj fields) =
    Ok (mkToolResult toolUseId
          (if truthy (assoc "error" fields)
           then "Tool " +:+ toolName +:+ " reported an error."
           else "Tool " +:+ toolName +:+ " executed.")
          (strict_eq_true (assoc "error" fields))).
Proof.
  intros Hno. unfold format_result. cbn [get].
  destruct (assoc "content" fields) as [| |b|z|s|[|c rest]|block] eqn:Hc;
    try (by destruct (truthy (assoc "error" fields))).
  by destruct (Hno c rest).
Qed.

Lemma result_without_content_witness :
  format_result Sample.rt "STOP" "toolu_01" (JObj [("error", JStr "no such process")]) =
    Ok (mkToolResult "toolu_01" "Tool STOP reported an error." false).
Proof.
  pose proof (result_without_content Sample.rt "STOP" "toolu_01"
                [("error", JStr "no such process")]) as H.
  apply H. intros c rest. discriminate.
Defined.

(** X10.  The result shape that every handler of the repository's servers
    returns, one text block plus [isError: true] on failure, reaches the
    model backend as that text with the error flag unset, whether or not
    the handler marked a failure. *)
Theorem handler_results_lose_their_mark
    (w : World) (self : MCPMultiClient) (hist : list Event) (toolCall : ToolUseBlock)
    (client : Client) (text : string) (failure : bool) :
  resolve self (tu_name toolCall) = Some client →
  callTool w (hist ++ [Log_executing (tu_name toolCall) (tu_id toolCall)
                         (if truthy (tu_input toolCall) then tu_input toolCall
                          else JObj [])])
           client (tu_name toolCall)
           (if truthy (tu_input toolCall) then tu_input toolCall else JObj [])
    = Ok (handler_result text failure) →
  (invoke w self hist toolCall).2 = mkToolResult (tu_id toolCall) text false.
Proof.
  intros Hres Hcall. unfold invoke. rewrite Hres, Hcall.
  by destruct failure.
Qed.

Lemma handler_results_lose_their_mark_witness :
  (invoke Sample.ps_missing Sample.process_connected [] Sample.list_call).2 =
    mkToolResult "toolu_01" "Error listing processes: spawn ps ENOENT" false.
Proof.
  pose proof (handler_results_lose_their_mark Sample.ps_missing Sample.process_connected
                [] Sample.list_call (mkClient "mcp-multi-client-process" "1.0.0")
                "Error listing processes: spawn ps ENOENT" true) as H.
  apply H.
  - vm_compute. reflexivity.
  - reflexivity.
Defined.

(** X11.  A remote invocation that is rejected, or that resolves with
    [null] or [undefined], does not stop the query: the dispatch returns an
    error-flagged result for the same request id whose text carries the
    cause, after exactly one remote call. *)
Theorem failed_invocation_becomes_error_result
    (w : World) (self : MCPMultiClient) (hist : list Event) (toolCall : ToolUseBlock)
    (client : Client) :
  resolve self (tu_name toolCall) = Some client →
  let toolInput := if truthy (tu_input toolCall) then tu_input toolCall else JObj [] in
  let outcome :=
    callTool w (hist ++ [Log_executing (tu_name toolCall) (tu_id toolCall) toolInput])
             client (tu_name toolCall) toolInput in
  (∀ e, outcome = Err e →
     (invoke w self hist toolCall).2 =
       mkToolResult (tu_id toolCall)
         ("Error executing tool " +:+ tu_name toolCall +:+ ": " +:+ message e) true) ∧
  (∀ result, outcome = Ok result → readable result = false →
     (invoke w self hist toolCall).2 =
       mkToolResult (tu_id toolCall)
         ("Error executing tool " +:+ tu_name toolCall +:+ ": " +:+
          type_error_message (runtime w) result "content") true) ∧
  remote_calls (invoke w self hist toolCall).1 = [(client, tu_name toolCall)].
Proof.
  intros Hres toolInput outcome. split; [|split].
  - intros e He. unfold invoke. rewrite Hres. fold toolInput. subst outcome.
    by rewrite He.
  - intros result Hr Hbad. unfold invoke. rewrite Hres. fold toolInput. subst outcome.
    rewrite Hr. by destruct result.
  - by apply invoke_resolved.
Qed.

Lemma failed_invocation_becomes_error_result_witness :
  (invoke Cases.disconnected Sample.twice_connected []
     (mkToolUse "toolu_01" "TIME" JUndefined)).2 =
    mkToolResult "toolu_01" "Error executing tool TIME: Not connected" true.
Proof.
  pose proof (failed_invocation_becomes_error_result Cases.disconnected
                Sample.twice_connected [] (mkToolUse "toolu_01" "TIME" JUndefined)
                (mkClient "mcp-multi-client-simple2" "1.0.0")) as H.
  cbv zeta in H. destruct H as (H & _).
  - vm_compute. reflexivity.
  - apply (H (mkError "Not connected")). reflexivity.
Defined.

(** ** Queries and the chat loop *)

Section Queries.

Context (w : World) (self : MCPMultiClient).

Implicit Types (hist evs : list Event) (query : string).








End Queries.





(** X14.  A failure of the model backend never escapes a query.  When the
    first request fails, the answer is the error text and nothing is
    dispatched.  When the second request fails, the answer is the error
    text alone: the text of the first response is dropped, although every
    requested invocation has been dispatched by then. *)
Theorem backend_failure_is_the_answer
    (w : World) (self : MCPMultiClient) (hist : list Event) (query : string) :
  (∀ e, messages_create w hist (initial_request self query) = Err e →
     processQuery w self hist query =
       ([Call_messages_create (initial_request self query); Error_query e],
        "An error occurred: " +:+ message e)) ∧
  (∀ resp e,
     messages_create w hist (initial_request self query) = Ok resp →
     tool_uses (resp_content resp) ≠ [] →
     messages_create w
       (hist ++ [Call_messages_create (initial_request self query)] ++
        (run_tools w self (hist ++ [Call_messages_create (initial_request self query)])
           (tool_uses (resp_content resp))).1)
       (final_request query (resp_content resp)
          (run_tools w self (hist ++ [Call_messages_create (initial_request self query)])
             (tool_uses (resp_content resp))).2)
       = Err e →
     (processQuery w self hist query).2 = "An error occurred: " +:+ message e ∧
     dispatches (processQuery w self hist query).1 =
       (fun tc => (tu_name tc, tu_id tc)) <$> tool_uses (resp_content resp)).
Proof.
  split.
  - intros e He. unfold processQuery. by rewrite He.
  - intros resp e Hresp Hsome Hfinal. split.
    + unfold processQuery. rewrite Hresp.
      destruct (tool_uses (resp_content resp)) as [|tc tcs] eqn:Htc; [done|].
      destruct (run_tools w self _ (tc :: tcs)) as [evs results]. cbn [fst snd] in *.
      by rewrite Hfinal.
    + destruct (processQuery_with_tools w self hist query resp Hresp Hsome)
        as (tail & Htrace & Htail).
      destruct (run_tools_sequential w self (tool_uses (resp_content resp))
                  (hist ++ [Call_messages_create (initial_request self query)]))
        as (groups & Hev & Hall & _).
      destruct (groups_dispatches _ _ Hall) as [Hd _].
      cbv zeta in Htrace. rewrite Htrace, Hev, !dispatches_app, Hd.
      change (dispatches (_ :: tail)) with (dispatches tail).
      destruct Htail as [->|[e' ->]]; cbn; by rewrite app_nil_r.
Qed.

Lemma backend_failure_is_the_answer_witness :
  (processQuery Cases.backend_fails_second Sample.twice_connected [] "what time is it").2
    = "An error occurred: overloaded".
Proof.
  pose proof (backend_failure_is_the_answer Cases.backend_fails_second
                Sample.twice_connected [] "what time is it") as [_ H].
  destruct (H Sample.asks_time (mkError "overloaded")) as [H1 _].
  - reflexivity.
  - simpl. discriminate.
  - reflexivity.
  - exact H1.
Defined.

(** ** The whole run *)

Section Runs.

Context (h : Host) (w : World).




(** With the credential set, an accepted configuration file leaves a new
    client that holds the configuration and nothing else. *)
Lemma loadConfig_accepted key path cfg :
  config_loads h path cfg →
  loadConfig h (mkMulti key None ∅ ∅ [] ∅) path
    = (mkMulti key (Some cfg) ∅ ∅ [] ∅, [], Returns tt).
Proof.
  intros (data & raw & Hd & Hr & Hp). unfold loadConfig. by rewrite Hd, Hr, Hp.
Qed.

Lemma constructor_with_key key :
  ANTHROPIC_API_KEY h = Some key → key ≠ "" →
  constructor h = Ok (mkMulti key None ∅ ∅ [] ∅).
Proof.
  intros Hk Hne. unfold constructor. rewrite Hk.
  by destruct (String.eqb_spec key "").
Qed.

End Runs.


(** X16.  A configuration that lists no server is accepted by the schema,
    and the process then exits with code 1 without attempting a connection
    and before reading any query. *)
Theorem empty_server_list_exits_one
    (h : Host) (w : World) (key : string) :
  existsSync h (configFile h) = true →
  ANTHROPIC_API_KEY h = Some key → key ≠ "" →
  config_loads h (configFile h) (mkConfig []) →
  schedule h [] = [] →
  main h w = ([Error_no_servers], Exits 1).
Proof.
  intros Hex Hkey Hne Hload Hsched.
  pose proof (constructor_with_key h key Hkey Hne) as Hnew.
  pose proof (loadConfig_accepted h key (configFile h) (mkConfig []) Hload) as Hl.
  unfold main, session. fold (configFile h). rewrite Hex, Hnew. cbn [negb].
  rewrite Hl. cbn. by rewrite Hsched.
Qed.


Lemma empty_server_list_exits_one_witness :
  main Hosts.no_servers Sample.clock = ([Error_no_servers], Exits 1).
Proof.
  apply (empty_server_list_exits_one Hosts.no_servers Sample.clock "sk-key").
  - reflexivity.
  - reflexivity.
  - discriminate.
  - exists "{...}", (encode_config (mkConfig [])). by repeat split.
  - reflexivity.
Defined.

(** ** The configuration schema *)

Section Schema.





End Schema.



(** * Properties of the tool servers *)

(** ** Ordered maps *)

Section JsMapFacts.

Context {K V : Type} `{EqDecision K}.

Implicit Types (k : K) (v : V) (m : list (K * V)).

Lemma jsmap_get_set k k' v m :
  JsMap.get k' (JsMap.set k v m) = if decide (k' = k) then Some v else JsMap.get k' m.
Proof.
  induction m as [|[k0 v0] m IH]; simpl.
  - by repeat case_decide.
  - destruct (decide (k = k0)) as [->|Hne]; simpl.
    + repeat case_decide; congruence.
    + rewrite IH. repeat case_decide; congruence.
Qed.

Lemma jsmap_delete_absent k m : JsMap.get k m = None → JsMap.delete k m = m.
Proof.
  induction m as [|[k0 v0] m IH]; simpl; [done|].
  case_decide; [done|]. intros Hk. by rewrite IH.
Qed.

Lemma jsmap_delete_set_absent k v m :
  JsMap.get k m = None → JsMap.delete k (JsMap.set k v m) = m.
Proof.
  induction m as [|[k0 v0] m IH]; simpl.
  - by rewrite decide_True.
  - destruct (decide (k = k0)) as [->|Hne]; [done|].
    intros Hk. simpl. rewrite decide_False by done. by rewrite IH.
Qed.

Lemma jsmap_get_delete_ne k k' m :
  k' ≠ k → JsMap.get k' (JsMap.delete k m) = JsMap.get k' m.
Proof.
  intros Hne. induction m as [|[k0 v0] m IH]; simpl; [done|].
  destruct (decide (k = k0)) as [->|Hk]; simpl.
  - by rewrite decide_False.
  - by rewrite IH.
Qed.

Lemma jsmap_get_none k m : JsMap.get k m = None ↔ k ∉ m.*1.
Proof.
  induction m as [|[k0 v0] m IH]; simpl.
  - split; [intros _; apply not_elem_of_nil|done].
  - rewrite not_elem_of_cons. case_decide; [subst|].
    + split; [done|]. by intros [? _].
    + rewrite IH. naive_solver.
Qed.

Lemma jsmap_get_delete_eq k m : NoDup m.*1 → JsMap.get k (JsMap.delete k m) = None.
Proof.
  induction m as [|[k0 v0] m IH]; simpl; [done|].
  intros [Hnotin Hnd]%NoDup_cons. destruct (decide (k = k0)) as [->|Hne].
  - by apply jsmap_get_none.
  - simpl. rewrite decide_False by done. by apply IH.
Qed.

Lemma jsmap_keys_set k v m :
  (JsMap.set k v m).*1 = if decide (k ∈ m.*1) then m.*1 else m.*1 ++ [k].
Proof.
  induction m as [|[k0 v0] m IH].
  - done.
  - cbn [JsMap.set]. rewrite fmap_cons. cbn [fst].
    destruct (decide (k = k0)) as [->|Hne].
    + rewrite fmap_cons. cbn [fst]. by rewrite decide_True by left.
    + rewrite fmap_cons, IH. cbn [fst]. destruct (decide (k ∈ m.*1)) as [Hin|Hout].
      * by rewrite decide_True by by right.
      * rewrite decide_False; [done|]. by intros [?|?]%elem_of_cons.
Qed.

Lemma jsmap_set_keys_nodup k v m : NoDup m.*1 → NoDup (JsMap.set k v m).*1.
Proof.
  intros Hnd. rewrite jsmap_keys_set. case_decide as Hk; [done|].
  apply NoDup_app. split; [done|]. split; [|apply NoDup_singleton].
  intros x Hx ->%list_elem_of_singleton. done.
Qed.

Lemma jsmap_delete_keys_subset k m x : x ∈ (JsMap.delete k m).*1 → x ∈ m.*1.
Proof.
  induction m as [|[k0 v0] m IH]; simpl; [done|].
  case_decide; [by right|]. simpl. intros [->|Hx]%elem_of_cons; [left|right; auto].
Qed.

Lemma jsmap_delete_keys_nodup k m : NoDup m.*1 → NoDup (JsMap.delete k m).*1.
Proof.
  induction m as [|[k0 v0] m IH]; simpl; [done|].
  intros [Hnotin Hnd]%NoDup_cons. case_decide; [done|]. simpl.
  apply NoDup_cons. split; [|auto].
  intros Hin. by apply Hnotin, (jsmap_delete_keys_subset k).
Qed.

Lemma jsmap_has_get k m : JsMap.has k m = true ↔ is_Some (JsMap.get k m).
Proof. unfold JsMap.has. apply bool_decide_eq_true. Qed.

Lemma jsmap_has_false k m : JsMap.has k m = false ↔ JsMap.get k m = None.
Proof.
  unfold JsMap.has. rewrite bool_decide_eq_false. symmetry. apply eq_None_not_Some.
Qed.

End JsMapFacts.

(** X19.  [STOP_PROCESS] changes the server's table only by removing the
    requested pid, and only when that process is managed and its kill
    signal was sent.  For a managed pid: on success the process is gone,
    the others are untouched and the result is not marked; when [kill()]
    returns false or throws, the table is unchanged and the result is
    marked as an error.  For a pid that is not managed the table is
    unchanged, and the result is marked exactly when [process.kill]
    throws. *)
Theorem stop_removes_only_when_killed
    (killed : Result bool) (external : Result unit) (pid : Z)
    (runningProcesses : ProcessControl.Processes) :
  NoDup runningProcesses.*1 →
  let r := ProcessControl.STOP_PROCESS killed external pid runningProcesses in
  (JsMap.has pid runningProcesses = true → killed = Ok true →
     JsMap.get pid r.1 = None ∧
     (∀ q, q ≠ pid → JsMap.get q r.1 = JsMap.get q runningProcesses) ∧
     ProcessControl.marked_error r.2 = false) ∧
  (JsMap.has pid runningProcesses = true → killed ≠ Ok true →
     r.1 = runningProcesses ∧ ProcessControl.marked_error r.2 = true) ∧
  (JsMap.has pid runningProcesses = false →
     r.1 = runningProcesses ∧
     ProcessControl.marked_error r.2 = (if external is Err _ then true else false)).
Proof.
  intros Hnd r. subst r. unfold ProcessControl.STOP_PROCESS.
  split; [|split].
  - intros -> ->. simpl. split; [by apply jsmap_get_delete_eq|]. split; [|done].
    intros q Hq. by apply jsmap_get_delete_ne.
  - intros -> Hk. destruct killed as [[|]|e]; done.
  - intros ->. by destruct external.
Qed.

Lemma stop_removes_only_when_killed_witness :
  (ProcessControl.STOP_PROCESS (Ok false) (Ok tt) 4242
     [(4242%Z, ProcessControl.mkManaged "sleep" ["60"])]).1
    = [(4242%Z, ProcessControl.mkManaged "sleep" ["60"])].
Proof.
  pose proof (stop_removes_only_when_killed (Ok false) (Ok tt) 4242
                [(4242%Z, ProcessControl.mkManaged "sleep" ["60"])]) as H.
  cbv zeta in H. destruct H as (_ & H & _).
  - repeat constructor. apply not_elem_of_nil.
  - destruct H as [H _]; [reflexivity|discriminate|exact H].
Defined.

(** X20.  Starting a process and then stopping it restores the table:
    when [spawn] yields a pid that was not managed before and the kill
    signal is sent, the table after [START_PROCESS] followed by
    [STOP_PROCESS] of that pid is the table before. *)
Theorem start_then_stop_restores
    (external : Result unit) (pid : Z) (command : string) (args : list string)
    (runningProcesses : ProcessControl.Processes) :
  pid ≠ 0%Z → JsMap.get pid runningProcesses = None →
  (ProcessControl.STOP_PROCESS (Ok true) external pid
     (ProcessControl.START_PROCESS (Ok (Some pid)) command args runningProcesses).1).1
    = runningProcesses.
Proof.
  intros Hpid Hfree. unfold ProcessControl.START_PROCESS.
  rewrite (proj2 (Z.eqb_neq pid 0) Hpid). cbn [fst].
  unfold ProcessControl.STOP_PROCESS.
  assert (JsMap.has pid (JsMap.set pid (ProcessControl.mkManaged command args)
                           runningProcesses) = true) as ->.
  { apply jsmap_has_get. rewrite jsmap_get_set, decide_True by done. eauto. }
  cbn [fst]. by apply jsmap_delete_set_absent.
Qed.

Lemma start_then_stop_restores_witness :
  (ProcessControl.STOP_PROCESS (Ok true) (Ok tt) 4242
     (ProcessControl.START_PROCESS (Ok (Some 4242%Z)) "sleep" ["60"] []).1).1 = [].
Proof.
  apply (start_then_stop_restores (Ok tt) 4242 "sleep" ["60"] []).
  - discriminate.
  - reflexivity.
Defined.

(** X21.  [START_PROCESS] registers a process only when [spawn] returns a
    child with a pid: when [spawn] throws, or the child has no pid (or pid
    0), the table is unchanged and the result is marked as an error; with a
    pid, exactly that pid is registered with its command and arguments and
    the other entries are untouched. *)
Theorem start_registers_only_with_pid
    (spawned : Result (option Z)) (command : string) (args : list string)
    (runningProcesses : ProcessControl.Processes) :
  let r := ProcessControl.START_PROCESS spawned command args runningProcesses in
  (∀ pid, spawned = Ok (Some pid) → pid ≠ 0%Z →
     JsMap.get pid r.1 = Some (ProcessControl.mkManaged command args) ∧
     (∀ q, q ≠ pid → JsMap.get q r.1 = JsMap.get q runningProcesses) ∧
     ProcessControl.marked_error r.2 = false) ∧
  ((∀ pid, spawned = Ok (Some pid) → pid = 0%Z) →
     r.1 = runningProcesses ∧ ProcessControl.marked_error r.2 = true).
Proof.
  intros r. subst r. unfold ProcessControl.START_PROCESS. split.
  - intros pid -> Hpid. rewrite (proj2 (Z.eqb_neq pid 0) Hpid). cbn [fst snd].
    split; [by rewrite jsmap_get_set, decide_True|]. split; [|done].
    intros q Hq. by rewrite jsmap_get_set, decide_False.
  - intros Hnone. destruct spawned as [[pid|]|e]; try done.
    by rewrite (Hnone pid eq_refl).
Qed.

Lemma start_registers_only_with_pid_witness :
  (ProcessControl.START_PROCESS (Ok None) "no-such-command" [] []).1 = [] ∧
  ProcessControl.marked_error
    (ProcessControl.START_PROCESS (Ok None) "no-such-command" [] []).2 = true.
Proof.
  pose proof (start_registers_only_with_pid (Ok None) "no-such-command" [] []) as H.
  cbv zeta in H. destruct H as [_ H]. apply H. intros pid Hp. discriminate.
Defined.



(** ** The task-scheduling server *)

Section SchedulerFacts.

Import TaskScheduling.

Implicit Types (srv : Server) (t : StoredTask) (evs : list ChildEvent).

Lemma stored_address name srv t :
  stored name srv = Some t ↔
  ∃ a, JsMap.get name (scheduledTasks srv) = Some a ∧ objects srv !! a = Some t.
Proof.
  unfold stored. destruct (JsMap.get name (scheduledTasks srv)) as [a|]; simpl.
  - split; [by exists a|]. by intros (a' & [= <-] & Ha).
  - split; [done|]. by intros (a' & [=] & _).
Qed.

(** The events of a run change its accumulators and, at most, the error
    field of its task object; the table and the callbacks are untouched. *)
Lemma child_events_effect evs srv run a n out err t :
  runs srv !! run = Some (mkRun a n out err) →
  objects srv !! a = Some t →
  runs (child_events run evs srv) !! run =
    Some (mkRun a n
            (foldl (fun acc ev => match ev with Stdout d => acc +:+ d | _ => acc end)
                   out evs)
            (foldl (fun acc ev => match ev with Stderr d => acc +:+ d | _ => acc end)
                   err evs)) ∧
  scheduledTasks (child_events run evs srv) = scheduledTasks srv ∧
  jobs (child_events run evs srv) = jobs srv ∧
  next_run (child_events run evs srv) = next_run srv ∧
  ∃ e', objects (child_events run evs srv) !! a =
          Some (mkStored (t_name t) (t_schedule t) (t_command t) (t_args t) (t_task t)
                         (lastRunOutput t) e' (lastRunExitCode t) (lastRunTime t)).
Proof.
  revert srv out err t. induction evs as [|ev evs IH]; intros srv out err t Hrun Hobj.
  - repeat split; try done. exists (lastRunError t). by destruct t.
  - change (child_events run (ev :: evs) srv)
      with (child_events run evs (child_event run ev srv)).
    destruct ev as [d|d|msg]; cbn [foldl].
    + assert (child_event run (Stdout d) srv =
              mkServer (objects srv) (scheduledTasks srv) (jobs srv)
                (<[run:=mkRun a n (out +:+ d) err]> (runs srv))
                (next_object srv) (next_task srv) (next_run srv)) as ->
        by (unfold child_event; by rewrite Hrun).
      edestruct (IH (mkServer (objects srv) (scheduledTasks srv) (jobs srv)
                       (<[run:=mkRun a n (out +:+ d) err]> (runs srv))
                       (next_object srv) (next_task srv) (next_run srv))
                    (out +:+ d) err t) as (H1 & H2 & H3 & H4 & H5);
        [by simpl; rewrite lookup_insert_eq|done|].
      by repeat split.
    + assert (child_event run (Stderr d) srv =
              mkServer (objects srv) (scheduledTasks srv) (jobs srv)
                (<[run:=mkRun a n out (err +:+ d)]> (runs srv))
                (next_object srv) (next_task srv) (next_run srv)) as ->
        by (unfold child_event; by rewrite Hrun).
      edestruct (IH (mkServer (objects srv) (scheduledTasks srv) (jobs srv)
                       (<[run:=mkRun a n out (err +:+ d)]> (runs srv))
                       (next_object srv) (next_task srv) (next_run srv))
                    out (err +:+ d) t) as (H1 & H2 & H3 & H4 & H5);
        [by simpl; rewrite lookup_insert_eq|done|].
      by repeat split.
    + assert (child_event run (ChildError msg) srv =
              mkServer (alter (set_lastRunError msg) a (objects srv))
                (scheduledTasks srv) (jobs srv) (runs srv)
                (next_object srv) (next_task srv) (next_run srv)) as ->
        by (unfold child_event; by rewrite Hrun).
      edestruct (IH (mkServer (alter (set_lastRunError msg) a (objects srv))
                       (scheduledTasks srv) (jobs srv) (runs srv)
                       (next_object srv) (next_task srv) (next_run srv))
                    out err (set_lastRunError msg t)) as (H1 & H2 & H3 & H4 & H5);
        [done|by simpl; rewrite lookup_alter_eq, Hobj|].
      by repeat split.
Qed.

(** A task that is in the table fires: its object is stamped and a run
    that writes to this object is added. *)
Lemma fire_effect task job now srv a t :
  jobs srv !! task = Some job →
  JsMap.get (j_name job) (scheduledTasks srv) = Some a →
  objects srv !! a = Some t →
  runs (fire task now srv) !! next_run srv = Some (mkRun a (j_name job) "" "") ∧
  objects (fire task now srv) !! a = Some (set_lastRunTime now t) ∧
  scheduledTasks (fire task now srv) = scheduledTasks srv ∧
  jobs (fire task now srv) = jobs srv ∧
  next_run (fire task now srv) = S (next_run srv).
Proof.
  intros Hjob Hget Hobj. unfold fire. rewrite Hjob, Hget. simpl.
  by rewrite lookup_insert_eq, lookup_alter_eq, Hobj.
Qed.

(** What [SCHEDULE_TASK] leaves when it stores. *)
Lemma schedule_stored name schedule command (args : list string) srv :
  JsMap.get name (scheduledTasks srv) = None →
  (SCHEDULE_TASK true (Ok tt) name schedule command args srv).1 =
    mkServer (<[next_object srv :=
                  mkStored name schedule command args (next_task srv)
                           None None None None]> (objects srv))
             (JsMap.set name (next_object srv) (scheduledTasks srv))
             (<[next_task srv := mkJob name schedule command args]> (jobs srv))
             (runs srv) (S (next_object srv)) (S (next_task srv)) (next_run srv) ∧
  stored name
    (mkServer (<[next_object srv :=
                   mkStored name schedule command args (next_task srv)
                            None None None None]> (objects srv))
              (JsMap.set name (next_object srv) (scheduledTasks srv))
              (<[next_task srv := mkJob name schedule command args]> (jobs srv))
              (runs srv) (S (next_object srv)) (S (next_task srv)) (next_run srv))
    = Some (mkStored name schedule command args (next_task srv) None None None None).
Proof.
  intros Hfree. split.
  - unfold SCHEDULE_TASK. by rewrite (proj2 (jsmap_has_false name _) Hfree).
  - apply stored_address. exists (next_object srv). simpl.
    by rewrite jsmap_get_set, decide_True, lookup_insert_eq.
Qed.

End SchedulerFacts.

(** X22.  [SCHEDULE_TASK] either refuses, leaving the server as it is and
    marking the result as an error, or stores the task: it stores it
    exactly when the name is free, the cron pattern valid and
    [cron.schedule] succeeds; a used name is refused before the pattern is
    looked at.  A task just stored has not run, and asking for its output
    says so without marking an error. *)
Theorem schedule_stores_or_refuses
    (valid : bool) (scheduled : Result unit)
    (name schedule command : string) (args : list string)
    (srv : TaskScheduling.Server) :
  let r := TaskScheduling.SCHEDULE_TASK valid scheduled name schedule command args srv in
  (JsMap.has name (TaskScheduling.scheduledTasks srv) = true →
     r = (srv, handler_result
                 ("Error: Task with name " +:+ TaskScheduling.quoted name
                  +:+ " already exists.") true)) ∧
  (JsMap.has name (TaskScheduling.scheduledTasks srv) = false →
   valid = true → scheduled = Ok tt →
     TaskScheduling.stored name r.1 =
       Some (TaskScheduling.mkStored name schedule command args
               (TaskScheduling.next_task srv) None None None None) ∧
     TaskScheduling.GET_TASK_OUTPUT name r.1 =
       handler_result ("Task " +:+ TaskScheduling.quoted name
                       +:+ " has not been executed yet.") false ∧
     ProcessControl.marked_error r.2 = false) ∧
  (JsMap.has name (TaskScheduling.scheduledTasks srv) = true ∨ valid = false
   ∨ (∃ e, scheduled = Err e) →
     r.1 = srv ∧ ProcessControl.marked_error r.2 = true).
Proof.
  intros r. subst r. unfold TaskScheduling.SCHEDULE_TASK. split; [|split].
  - by intros ->.
  - intros -> -> ->. cbn [negb fst snd].
    assert (Hst : TaskScheduling.stored name
              (TaskScheduling.mkServer
                 (<[TaskScheduling.next_object srv :=
                      TaskScheduling.mkStored name schedule command args
                        (TaskScheduling.next_task srv) None None None None]>
                    (TaskScheduling.objects srv))
                 (JsMap.set name (TaskScheduling.next_object srv)
                    (TaskScheduling.scheduledTasks srv))
                 (<[TaskScheduling.next_task srv :=
                      TaskScheduling.mkJob name schedule command args]>
                    (TaskScheduling.jobs srv))
                 (TaskScheduling.runs srv) (S (TaskScheduling.next_object srv))
                 (S (TaskScheduling.next_task srv)) (TaskScheduling.next_run srv))
              = Some (TaskScheduling.mkStored name schedule command args
                        (TaskScheduling.next_task srv) None None None None)).
    { apply stored_address. exists (TaskScheduling.next_object srv). simpl.
      by rewrite jsmap_get_set, decide_True, lookup_insert_eq. }
    split; [exact Hst|]. split; [|done].
    unfold TaskScheduling.GET_TASK_OUTPUT. by rewrite Hst.
  - intros [-> | [-> | [e ->]]].
    + done.
    + by destruct (JsMap.has name (TaskScheduling.scheduledTasks srv)).
    + destruct (JsMap.has name (TaskScheduling.scheduledTasks srv)); [done|].
      by destruct valid.
Qed.

Lemma schedule_stores_or_refuses_witness :
  (TaskScheduling.SCHEDULE_TASK false (Ok tt) "backup" "every day" "tar" []
     TaskScheduling.started).1 = TaskScheduling.started.
Proof.
  pose proof (schedule_stores_or_refuses false (Ok tt) "backup" "every day" "tar" []
                TaskScheduling.started) as H.
  cbv zeta in H. destruct H as (_ & _ & H).
  destruct H as [H _]; [right; by left|exact H].
Defined.

(** X23.  Scheduling a task under a free name and cancelling it restores
    the table of tasks, and the cancelled task cannot fire any more. *)
Theorem schedule_then_cancel_restores
    (name schedule command : string) (args : list string)
    (srv : TaskScheduling.Server) :
  JsMap.get name (TaskScheduling.scheduledTasks srv) = None →
  let scheduled :=
    (TaskScheduling.SCHEDULE_TASK true (Ok tt) name schedule command args srv).1 in
  let cancelled := TaskScheduling.CANCEL_TASK (Ok tt) name scheduled in
  TaskScheduling.scheduledTasks cancelled.1 = TaskScheduling.scheduledTasks srv ∧
  TaskScheduling.jobs cancelled.1 !! TaskScheduling.next_task srv = None ∧
  ProcessControl.marked_error cancelled.2 = false.
Proof.
  intros Hfree scheduled cancelled. subst cancelled scheduled.
  destruct (schedule_stored name schedule command args srv Hfree) as (Hsrv & Hst).
  rewrite Hsrv in *. unfold TaskScheduling.CANCEL_TASK. rewrite Hst.
  cbn [fst snd TaskScheduling.scheduledTasks TaskScheduling.jobs TaskScheduling.t_task].
  split; [by apply jsmap_delete_set_absent|]. split; [|done].
  apply lookup_delete_eq.
Qed.

Lemma schedule_then_cancel_restores_witness :
  TaskScheduling.scheduledTasks
    (TaskScheduling.CANCEL_TASK (Ok tt) "backup"
       (TaskScheduling.SCHEDULE_TASK true (Ok tt) "backup" "0 3 * * *" "tar" []
          TaskScheduling.started).1).1 = [].
Proof.
  pose proof (schedule_then_cancel_restores "backup" "0 3 * * *" "tar" []
                TaskScheduling.started) as H.
  cbv zeta in H. destruct H as (H & _); [reflexivity|exact H].
Defined.

(** X24.  [CANCEL_TASK] changes the server only when the task exists and
    [task.stop()] succeeds: then the name is free again, the other tasks
    are untouched and the task fires no more.  When [stop] throws, the task
    stays and the result is marked; an unknown name is refused with a
    marked result. *)
Theorem cancel_removes_only_when_stopped
    (stopped : Result unit) (name : string) (srv : TaskScheduling.Server) :
  NoDup (TaskScheduling.scheduledTasks srv).*1 →
  let r := TaskScheduling.CANCEL_TASK stopped name srv in
  (∀ t, TaskScheduling.stored name srv = Some t → stopped = Ok tt →
     TaskScheduling.stored name r.1 = None ∧
     (∀ other, other ≠ name →
        TaskScheduling.stored other r.1 = TaskScheduling.stored other srv) ∧
     TaskScheduling.jobs r.1 !! TaskScheduling.t_task t = None ∧
     ProcessControl.marked_error r.2 = false) ∧
  (TaskScheduling.stored name srv = None ∨ (∃ e, stopped = Err e) →
     r.1 = srv ∧ ProcessControl.marked_error r.2 = true).
Proof.
  intros Hnd r. subst r. unfold TaskScheduling.CANCEL_TASK. split.
  - intros t -> ->. cbn [fst snd]. split; [|split; [|split; [|done]]].
    + unfold TaskScheduling.stored. simpl. by rewrite jsmap_get_delete_eq.
    + intros other Hne. unfold TaskScheduling.stored. simpl.
      by rewrite jsmap_get_delete_ne.
    + simpl. apply lookup_delete_eq.
  - intros [-> | [e ->]]; [done|].
    by destruct (TaskScheduling.stored name srv).
Qed.

Lemma cancel_removes_only_when_stopped_witness :
  (TaskScheduling.CANCEL_TASK (Ok tt) "backup" TaskScheduling.started).1
    = TaskScheduling.started.
Proof.
  pose proof (cancel_removes_only_when_stopped (Ok tt) "backup" TaskScheduling.started)
    as H.
  cbv zeta in H. destruct H as [_ H]; [constructor|].
  destruct H as [H _]; [by left|exact H].
Defined.

(** X25.  A task in the table fires at [now], its child writes and fails
    in any order ([evs]) and then closes with [code].  Asking for the
    task's output afterwards reports this run: the time of the firing, the
    standard output as written, chunk after chunk, and the standard error
    likewise.  The exit code shows as N/A for code 0 and for a child killed
    by a signal; what an [error] event stored is overwritten at the close,
    so a failure to spawn leaves no trace when nothing was written to
    standard error. *)
Theorem run_is_reported
    (srv : TaskScheduling.Server) (task : nat) (job : TaskScheduling.Job)
    (t : TaskScheduling.StoredTask) (now : string)
    (evs : list TaskScheduling.ChildEvent) (code : option Z) :
  TaskScheduling.jobs srv !! task = Some job →
  TaskScheduling.stored (TaskScheduling.j_name job) srv = Some t →
  let run := TaskScheduling.next_run srv in
  let final :=
    TaskScheduling.close run code
      (TaskScheduling.child_events run evs (TaskScheduling.fire task now srv)) in
  TaskScheduling.GET_TASK_OUTPUT (TaskScheduling.j_name job) final =
    handler_result
      ("Output for task " +:+ TaskScheduling.quoted (TaskScheduling.j_name job)
       +:+ " (run at " +:+ now +:+ "):" +:+ nl +:+ nl
       +:+ "Exit code: "
       +:+ match code with
           | Some c => if (c =? 0)%Z then "N/A" else pretty c
           | None => "N/A"
           end +:+ nl +:+ nl
       +:+ (if String.eqb (TaskScheduling.stdout_of evs) ""
            then "STDOUT: <no output>" +:+ nl +:+ nl
            else "STDOUT:" +:+ nl +:+ TaskScheduling.stdout_of evs +:+ nl +:+ nl)
       +:+ (if String.eqb (TaskScheduling.stderr_of evs) ""
            then ""
            else "STDERR:" +:+ nl +:+ TaskScheduling.stderr_of evs))
      false.
Proof.
  intros Hjob Hstored run final.
  apply stored_address in Hstored as (a & Hget & Hobj).
  destruct (fire_effect task job now srv a t Hjob Hget Hobj) as (F1 & F2 & F3 & F4 & F5).
  destruct (child_events_effect evs (TaskScheduling.fire task now srv) run a
              (TaskScheduling.j_name job) "" "" (TaskScheduling.set_lastRunTime now t)
              F1 F2) as (C1 & C2 & C3 & C4 & (e' & C5)).
  assert (Hfinal : TaskScheduling.stored (TaskScheduling.j_name job) final =
            Some (TaskScheduling.mkStored (TaskScheduling.t_name t)
                    (TaskScheduling.t_schedule t) (TaskScheduling.t_command t)
                    (TaskScheduling.t_args t) (TaskScheduling.t_task t)
                    (Some (TaskScheduling.stdout_of evs))
                    (Some (TaskScheduling.stderr_of evs))
                    (TaskScheduling.recorded_code code) (Some now))).
  { apply stored_address. exists a. subst final. unfold TaskScheduling.close.
    rewrite C1. simpl. rewrite jsmap_get_set, decide_True by done.
    split; [done|]. by rewrite lookup_alter_eq, C5. }
  unfold TaskScheduling.GET_TASK_OUTPUT. rewrite Hfinal. simpl.
  unfold TaskScheduling.output_text. simpl.
  unfold TaskScheduling.exit_code_text, TaskScheduling.recorded_code.
  by destruct code as [c|]; [destruct (c =? 0)%Z|].
Qed.

Lemma run_is_reported_witness :
  TaskScheduling.GET_TASK_OUTPUT "backup"
    (TaskScheduling.close 0 (Some 0%Z)
       (TaskScheduling.child_events 0
          [TaskScheduling.ChildError "spawn tar ENOENT"; TaskScheduling.Stdout "do";
           TaskScheduling.Stdout "ne"]
          (TaskScheduling.fire 0 "2024-05-01T03:00:00.000Z"
             (TaskScheduling.SCHEDULE_TASK true (Ok tt) "backup" "0 3 * * *" "tar" []
                TaskScheduling.started).1)))
  = handler_result
      ("Output for task " +:+ dq +:+ "backup" +:+ dq
       +:+ " (run at 2024-05-01T03:00:00.000Z):" +:+ nl +:+ nl
       +:+ "Exit code: N/A" +:+ nl +:+ nl +:+ "STDOUT:" +:+ nl +:+ "done" +:+ nl +:+ nl)
      false.
Proof.
  pose proof (run_is_reported
                (TaskScheduling.SCHEDULE_TASK true (Ok tt) "backup" "0 3 * * *" "tar" []
                   TaskScheduling.started).1
                0 (TaskScheduling.mkJob "backup" "0 3 * * *" "tar" [])
                (TaskScheduling.mkStored "backup" "0 3 * * *" "tar" [] 0
                   None None None None)
                "2024-05-01T03:00:00.000Z"
                [TaskScheduling.ChildError "spawn tar ENOENT"; TaskScheduling.Stdout "do";
                 TaskScheduling.Stdout "ne"]
                (Some 0%Z)) as H.
  cbv zeta in H. specialize (H eq_refl eq_refl).
  etrans; [exact H|]. vm_compute. reflexivity.
Defined.

(** X26.  A task that is cancelled while one of its runs is still going
    comes back when that run closes: after the cancellation the name is
    free, but the close handler stores the task object again under its
    name.  From then on the name is taken, so scheduling under it is
    refused, although the task can no longer fire. *)
Theorem cancelled_task_returns_at_close
    (srv : TaskScheduling.Server) (task : nat) (job : TaskScheduling.Job)
    (t : TaskScheduling.StoredTask) (now : string)
    (evs : list TaskScheduling.ChildEvent) (code : option Z) :
  NoDup (TaskScheduling.scheduledTasks srv).*1 →
  TaskScheduling.jobs srv !! task = Some job →
  TaskScheduling.stored (TaskScheduling.j_name job) srv = Some t →
  let run := TaskScheduling.next_run srv in
  let running := TaskScheduling.child_events run evs (TaskScheduling.fire task now srv) in
  let cancelled :=
    (TaskScheduling.CANCEL_TASK (Ok tt) (TaskScheduling.j_name job) running).1 in
  let final := TaskScheduling.close run code cancelled in
  JsMap.has (TaskScheduling.j_name job) (TaskScheduling.scheduledTasks cancelled) = false ∧
  JsMap.has (TaskScheduling.j_name job) (TaskScheduling.scheduledTasks final) = true ∧
  TaskScheduling.jobs final !! TaskScheduling.t_task t = None ∧
  ∀ valid scheduled schedule command args,
    TaskScheduling.SCHEDULE_TASK valid scheduled (TaskScheduling.j_name job)
      schedule command args final =
    (final, handler_result
              ("Error: Task with name "
               +:+ TaskScheduling.quoted (TaskScheduling.j_name job)
               +:+ " already exists.") true).
Proof.
  intros Hnd Hjob Hstored run running cancelled final.
  apply stored_address in Hstored as (a & Hget & Hobj).
  destruct (fire_effect task job now srv a t Hjob Hget Hobj) as (F1 & F2 & F3 & F4 & F5).
  destruct (child_events_effect evs (TaskScheduling.fire task now srv) run a
              (TaskScheduling.j_name job) "" "" (TaskScheduling.set_lastRunTime now t)
              F1 F2) as (C1 & C2 & C3 & C4 & (e' & C5)).
  fold running in C1, C2, C3, C4, C5.
  assert (Hst : TaskScheduling.stored (TaskScheduling.j_name job) running =
                  Some (TaskScheduling.mkStored (TaskScheduling.t_name t)
                          (TaskScheduling.t_schedule t) (TaskScheduling.t_command t)
                          (TaskScheduling.t_args t) (TaskScheduling.t_task t)
                          (TaskScheduling.lastRunOutput t) e'
                          (TaskScheduling.lastRunExitCode t) (Some now))).
  { apply stored_address. exists a. by rewrite C2, F3. }
  assert (Hc : cancelled =
            TaskScheduling.mkServer (TaskScheduling.objects running)
              (JsMap.delete (TaskScheduling.j_name job)
                 (TaskScheduling.scheduledTasks running))
              (delete (TaskScheduling.t_task t) (TaskScheduling.jobs running))
              (TaskScheduling.runs running) (TaskScheduling.next_object running)
              (TaskScheduling.next_task running) (TaskScheduling.next_run running)).
  { subst cancelled. unfold TaskScheduling.CANCEL_TASK. by rewrite Hst. }
  assert (Hf : final =
            TaskScheduling.mkServer
              (alter (TaskScheduling.set_closed (TaskScheduling.recorded_code code)
                        (TaskScheduling.stdout_of evs) (TaskScheduling.stderr_of evs))
                     a (TaskScheduling.objects running))
              (JsMap.set (TaskScheduling.j_name job) a
                 (JsMap.delete (TaskScheduling.j_name job)
                    (TaskScheduling.scheduledTasks running)))
              (delete (TaskScheduling.t_task t) (TaskScheduling.jobs running))
              (delete run (TaskScheduling.runs running))
              (TaskScheduling.next_object running)
              (TaskScheduling.next_task running) (TaskScheduling.next_run running)).
  { subst final. rewrite Hc. unfold TaskScheduling.close. simpl. by rewrite C1. }
  assert (Hhas : JsMap.has (TaskScheduling.j_name job)
                   (TaskScheduling.scheduledTasks final) = true).
  { rewrite Hf. simpl. apply jsmap_has_get.
    rewrite jsmap_get_set, decide_True by done. eauto. }
  split; [|split; [exact Hhas|split]].
  - rewrite Hc. simpl. apply jsmap_has_false, jsmap_get_delete_eq. by rewrite C2, F3.
  - rewrite Hf. simpl. apply lookup_delete_eq.
  - intros valid scheduled schedule command args.
    unfold TaskScheduling.SCHEDULE_TASK. by rewrite Hhas.
Qed.

Lemma cancelled_task_returns_at_close_witness :
  JsMap.has "backup"
    (TaskScheduling.scheduledTasks
       (TaskScheduling.close 0 (Some 1%Z)
          (TaskScheduling.CANCEL_TASK (Ok tt) "backup"
             (TaskScheduling.child_events 0 []
                (TaskScheduling.fire 0 "2024-05-01T03:00:00.000Z"
                   (TaskScheduling.SCHEDULE_TASK true (Ok tt) "backup" "0 3 * * *"
                      "tar" [] TaskScheduling.started).1))).1)) = true.
Proof.
  pose proof (cancelled_task_returns_at_close
                (TaskScheduling.SCHEDULE_TASK true (Ok tt) "backup" "0 3 * * *" "tar" []
                   TaskScheduling.started).1
                0 (TaskScheduling.mkJob "backup" "0 3 * * *" "tar" [])
                (TaskScheduling.mkStored "backup" "0 3 * * *" "tar" [] 0
                   None None None None)
                "2024-05-01T03:00:00.000Z" [] (Some 1%Z)) as H.
  cbv zeta in H. destruct H as (_ & H & _).
  - repeat constructor. apply not_elem_of_nil.
  - reflexivity.
  - reflexivity.
  - exact H.
Defined.

(** X27.  A task is cancelled while one of its runs is still going, a new
    task is scheduled under the same name, and then the old run closes.
    The close handler stores the old task object under the name again, in
    the place of the new one: the name now shows the old schedule and
    command, while the new task's cron callback stays registered.
    Cancelling the name afterwards stops the old task once more and frees
    the name, and the new task keeps firing with no name to cancel it
    by. *)
Theorem old_run_displaces_new_task
    (srv : TaskScheduling.Server) (task : nat) (job : TaskScheduling.Job)
    (t : TaskScheduling.StoredTask) (now : string) (code : option Z)
    (schedule command : string) (args : list string) :
  NoDup (TaskScheduling.scheduledTasks srv).*1 → allocated srv →
  TaskScheduling.jobs srv !! task = Some job →
  TaskScheduling.stored (TaskScheduling.j_name job) srv = Some t →
  let name := TaskScheduling.j_name job in
  let run := TaskScheduling.next_run srv in
  let cancelled :=
    (TaskScheduling.CANCEL_TASK (Ok tt) name (TaskScheduling.fire task now srv)).1 in
  let rescheduled :=
    (TaskScheduling.SCHEDULE_TASK true (Ok tt) name schedule command args cancelled).1 in
  let closed := TaskScheduling.close run code rescheduled in
  let fresh := TaskScheduling.mkJob name schedule command args in
  TaskScheduling.stored name rescheduled =
    Some (TaskScheduling.mkStored name schedule command args
            (TaskScheduling.next_task srv) None None None None) ∧
  TaskScheduling.stored name closed =
    Some (TaskScheduling.mkStored (TaskScheduling.t_name t)
            (TaskScheduling.t_schedule t) (TaskScheduling.t_command t)
            (TaskScheduling.t_args t) (TaskScheduling.t_task t)
            (Some "") (Some "") (TaskScheduling.recorded_code code) (Some now)) ∧
  TaskScheduling.jobs closed !! TaskScheduling.next_task srv = Some fresh ∧
  TaskScheduling.stored name (TaskScheduling.CANCEL_TASK (Ok tt) name closed).1 = None ∧
  TaskScheduling.jobs (TaskScheduling.CANCEL_TASK (Ok tt) name closed).1
    !! TaskScheduling.next_task srv = Some fresh.
Proof.
  intros Hnd [Haddr Htask] Hjob Hstored name run cancelled rescheduled closed fresh.
  apply stored_address in Hstored as (a & Hget & Hobj). fold name in Hget.
  destruct (fire_effect task job now srv a t Hjob Hget Hobj) as (F1 & F2 & F3 & F4 & F5).
  fold name run in F1.
  assert (Ha : a ≠ TaskScheduling.next_object srv).
  { apply Haddr in Hget. lia. }
  assert (Ht : TaskScheduling.t_task t ≠ TaskScheduling.next_task srv).
  { apply Htask in Hobj. lia. }
  assert (Hnext : TaskScheduling.next_object (TaskScheduling.fire task now srv)
                    = TaskScheduling.next_object srv ∧
                  TaskScheduling.next_task (TaskScheduling.fire task now srv)
                    = TaskScheduling.next_task srv).
  { unfold TaskScheduling.fire. rewrite Hjob. fold name. by rewrite Hget. }
  destruct Hnext as [N1 N2].
  set (fired := TaskScheduling.fire task now srv) in *.
  assert (Hst : TaskScheduling.stored name fired
                  = Some (TaskScheduling.set_lastRunTime now t)).
  { apply stored_address. exists a. by rewrite F3. }
  assert (Hc : cancelled =
            TaskScheduling.mkServer (TaskScheduling.objects fired)
              (JsMap.delete name (TaskScheduling.scheduledTasks srv))
              (delete (TaskScheduling.t_task t) (TaskScheduling.jobs srv))
              (TaskScheduling.runs fired) (TaskScheduling.next_object srv)
              (TaskScheduling.next_task srv) (TaskScheduling.next_run fired)).
  { subst cancelled. unfold TaskScheduling.CANCEL_TASK. rewrite Hst. simpl.
    by rewrite F3, F4, N1, N2. }
  assert (Hfree : JsMap.get name (TaskScheduling.scheduledTasks cancelled) = None).
  { rewrite Hc. simpl. by apply jsmap_get_delete_eq. }
  destruct (schedule_stored name schedule command args cancelled Hfree) as (Hr & Hrs).
  fold rescheduled in Hr. rewrite <- Hr in Hrs.
  assert (Hnt : TaskScheduling.next_task cancelled = TaskScheduling.next_task srv)
    by by rewrite Hc.
  assert (Hno : TaskScheduling.next_object cancelled = TaskScheduling.next_object srv)
    by by rewrite Hc.
  rewrite Hnt in Hrs.
  assert (Hrun : TaskScheduling.runs rescheduled !! run
                   = Some (TaskScheduling.mkRun a name "" "")).
  { rewrite Hr. simpl. by rewrite Hc. }
  assert (Hobja : TaskScheduling.objects rescheduled !! a
                    = Some (TaskScheduling.set_lastRunTime now t)).
  { rewrite Hr. simpl. rewrite Hno, lookup_insert_ne by done. by rewrite Hc. }
  assert (Hjobs : TaskScheduling.jobs rescheduled !! TaskScheduling.next_task srv
                    = Some fresh).
  { rewrite Hr. simpl. by rewrite Hnt, lookup_insert_eq. }
  assert (Hcl : closed =
            TaskScheduling.mkServer
              (alter (TaskScheduling.set_closed (TaskScheduling.recorded_code code) "" "")
                     a (TaskScheduling.objects rescheduled))
              (JsMap.set name a (TaskScheduling.scheduledTasks rescheduled))
              (TaskScheduling.jobs rescheduled)
              (delete run (TaskScheduling.runs rescheduled))
              (TaskScheduling.next_object rescheduled)
              (TaskScheduling.next_task rescheduled)
              (TaskScheduling.next_run rescheduled)).
  { subst closed. unfold TaskScheduling.close. by rewrite Hrun. }
  assert (Hscl : TaskScheduling.stored name closed =
            Some (TaskScheduling.mkStored (TaskScheduling.t_name t)
                    (TaskScheduling.t_schedule t) (TaskScheduling.t_command t)
                    (TaskScheduling.t_args t) (TaskScheduling.t_task t)
                    (Some "") (Some "") (TaskScheduling.recorded_code code) (Some now))).
  { apply stored_address. exists a. rewrite Hcl. simpl.
    rewrite jsmap_get_set, decide_True by done. split; [done|].
    by rewrite lookup_alter_eq, Hobja. }
  split; [exact Hrs|]. split; [exact Hscl|]. split; [by rewrite Hcl|].
  unfold TaskScheduling.CANCEL_TASK. rewrite Hscl. cbn [fst].
  split.
  - unfold TaskScheduling.stored. simpl. rewrite jsmap_get_delete_eq; [done|].
    rewrite Hcl. simpl. apply jsmap_set_keys_nodup. rewrite Hr. simpl.
    apply jsmap_set_keys_nodup. rewrite Hc. simpl. by apply jsmap_delete_keys_nodup.
  - simpl. rewrite lookup_delete_ne by done. by rewrite Hcl.
Qed.

Lemma old_run_displaces_new_task_witness :
  TaskScheduling.t_schedule
    <$> TaskScheduling.stored "backup"
          (TaskScheduling.close 0 (Some 1%Z)
             (TaskScheduling.SCHEDULE_TASK true (Ok tt) "backup" "0 4 * * *" "rsync" []
                (TaskScheduling.CANCEL_TASK (Ok tt) "backup"
                   (TaskScheduling.fire 0 "2024-05-01T03:00:00.000Z"
                      (TaskScheduling.SCHEDULE_TASK true (Ok tt) "backup" "0 3 * * *"
                         "tar" [] TaskScheduling.started).1)).1).1)
  = Some "0 3 * * *".
Proof.
  pose proof (old_run_displaces_new_task
                (TaskScheduling.SCHEDULE_TASK true (Ok tt) "backup" "0 3 * * *" "tar" []
                   TaskScheduling.started).1
                0 (TaskScheduling.mkJob "backup" "0 3 * * *" "tar" [])
                (TaskScheduling.mkStored "backup" "0 3 * * *" "tar" [] 0
                   None None None None)
                "2024-05-01T03:00:00.000Z" (Some 1%Z) "0 4 * * *" "rsync" []) as H.
  cbv zeta in H. destruct H as (_ & H & _).
  - repeat constructor. apply not_elem_of_nil.
  - split.
    + intros n a. simpl. case_decide; [|done]. intros [= <-]. lia.
    + intros a t. simpl. intros [[_ <-]|[_ Hempty]]%lookup_insert_Some; [simpl; lia|].
      by rewrite lookup_empty in Hempty.
  - reflexivity.
  - reflexivity.
  - etrans; [exact (f_equal (fmap TaskScheduling.t_schedule) H)|reflexivity].
Defined.


